(** * MaaEnd workspace setup: release resolution, version comparison,
      version ledger and locked-replace installation

    A shallow embedding of [tools/setup_workspace.py].  Python values are
    modelled dynamically (one type [value] for everything [json.loads] can
    return, [PNone] being Python's [None]); exceptions are an explicit
    [result]; the effects of the installers (file-system probes, network,
    removal attempts, operator prompts) are answered by an environment
    record and recorded in an event log. *)

From Stdlib Require Import ZArith Ascii String List Lia Bool.
From Stdlib Require Import Numbers.DecimalString QArith Qround.
From Stdlib Require Numbers.DecimalFacts Numbers.DecimalPos Numbers.DecimalN.
From stdpp Require Import base gmap strings list fin_maps.

Local Open Scope Z_scope.

(** ** Python strings

    A [string] is read as a sequence of code points below 256 (Latin-1).
    On that range the character classes below are exactly those of
    CPython's [str.isspace], [str.isdigit], [str.lower] and of the decimal
    digits accepted by [int()]. *)
Module PyStr.

Definition code (c : ascii) : N := N_of_ascii c.

Definition in_range (lo hi : N) (c : ascii) : bool :=
  (lo <=? code c)%N && (code c <=? hi)%N.

(** Characters removed by [str.strip()]: TAB..CR, FS..US, space,
    NEL (0x85) and NBSP (0xA0). *)
Definition isspace (c : ascii) : bool :=
  in_range 9 13 c || in_range 28 32 c
  || (code c =? 133)%N || (code c =? 160)%N.

(** Digits that [int()] converts: '0'..'9'. *)
Definition isdecimal (c : ascii) : bool := in_range 48 57 c.

(** [str.isdigit]: the decimal digits and the superscripts
    U+00B2, U+00B3, U+00B9. *)
Definition isdigit (c : ascii) : bool :=
  isdecimal c
  || (code c =? 178)%N || (code c =? 179)%N || (code c =? 185)%N.

(** [str.lower] on one character: 'A'..'Z' and U+00C0..U+00DE except the
    multiplication sign U+00D7 move up by 32. *)
Definition lower_char (c : ascii) : ascii :=
  if in_range 65 90 c || (in_range 192 222 c && negb (code c =? 215)%N)
  then ascii_of_N (code c + 32) else c.

Fixpoint lower (s : string) : string :=
  match s with
  | EmptyString => EmptyString
  | String c r => String (lower_char c) (lower r)
  end.

Definition is_empty (s : string) : bool :=
  match s with EmptyString => true | String _ _ => false end.

Fixpoint lstrip (s : string) : string :=
  match s with
  | EmptyString => EmptyString
  | String c r => if isspace c then lstrip r else s
  end.

Fixpoint rstrip (s : string) : string :=
  match s with
  | EmptyString => EmptyString
  | String c r =>
      let r' := rstrip r in
      if isspace c && is_empty r' then EmptyString else String c r'
  end.

(** [s.strip()] *)
Definition strip (s : string) : string := rstrip (lstrip s).

(** [s.startswith(p)] *)
Definition startswith (p s : string) : bool := String.prefix p s.

(** [sub in s] *)
Fixpoint contains (sub s : string) : bool :=
  String.prefix sub s
  || match s with
     | EmptyString => false
     | String _ r => contains sub r
     end.

(** [s[1:]] *)
Definition drop1 (s : string) : string :=
  match s with EmptyString => EmptyString | String _ r => r end.

(** [s.split(sep)] for a one-character separator: n occurrences of the
    separator give n+1 parts. *)
Fixpoint split (sep : ascii) (s : string) : list string :=
  match s with
  | EmptyString => [EmptyString]
  | String c r =>
      if Ascii.eqb c sep then EmptyString :: split sep r
      else match split sep r with
           | h :: t => String c h :: t
           | [] => [String c EmptyString]
           end
  end.

(** [s.split(sep, 1)[0]]: the text before the first separator. *)
Fixpoint split_first (sep : ascii) (s : string) : string :=
  match s with
  | EmptyString => EmptyString
  | String c r =>
      if Ascii.eqb c sep then EmptyString else String c (split_first sep r)
  end.

Definition digit_value (c : ascii) : Z := Z.of_N (code c) - 48.

Fixpoint int_from (acc : Z) (s : string) : option Z :=
  match s with
  | EmptyString => Some acc
  | String c r =>
      if isdecimal c then int_from (10 * acc + digit_value c) r else None
  end.

(** The number of decimal digits in a text. *)
Fixpoint digit_count (s : string) : Z :=
  match s with
  | EmptyString => 0
  | String c r => if isdecimal c then 1 + digit_count r else digit_count r
  end.

(** [sys.int_info.default_max_str_digits]: [int()] refuses a text with
    more digits than this. *)
Definition int_max_str_digits : Z := 4300.

(** [int(s)] for a non-empty [s] made of [isdigit] characters: the
    decimal value, or [None] (a [ValueError]) when a superscript digit
    occurs or when there are more than [int_max_str_digits] digits. *)
Definition int_of (s : string) : option Z :=
  if int_max_str_digits <? digit_count s then None else int_from 0 s.

(** The digits of an integer literal: decimal digits, single
    underscores allowed between two digits. *)
Fixpoint int_digits (acc : Z) (after_digit : bool) (s : string) : option Z :=
  match s with
  | EmptyString => if after_digit then Some acc else None
  | String c r =>
      if isdecimal c then int_digits (10 * acc + digit_value c) true r
      else if Ascii.eqb c "_" && after_digit then int_digits acc false r
      else None
  end.

(** [int(s)] for any text: surrounding whitespace, an optional sign,
    then the digits, at most [int_max_str_digits] of them; [None] is a
    [ValueError]. *)
Definition int_text (s : string) : option Z :=
  let t := strip s in
  if int_max_str_digits <? digit_count t then None
  else
    match t with
    | String "-" r => option_map Z.opp (int_digits 0 false r)
    | String "+" r => int_digits 0 false r
    | _ => int_digits 0 false t
    end.

Definition eqb (a b : string) : bool := String.eqb a b.

End PyStr.

(** ** Python values and exceptions *)

(** Everything [json.loads] can produce.  A float is its IEEE-754 binary64
    bit pattern; a dict is its items in insertion order (keys distinct). *)
#[warnings="-register-all"]
Inductive value : Type :=
| PNone
| PBool (b : bool)
| PInt (n : Z)
| PFloat (bits : Z)
| PStr (s : string)
| PList (items : list value)
| PDict (items : list (string * value)).

Inductive exn : Type :=
| AssertionError
| ValueError
| KeyError
| AttributeError
| TypeError
| EOFError
| URLError
| OSError
| OverflowError
| OtherError.

Inductive result (A : Type) : Type :=
| Ok (a : A)
| Raise (e : exn).
Arguments Ok {A} a.
Arguments Raise {A} e.

Definition bind {A B} (m : result A) (k : A -> result B) : result B :=
  match m with
  | Ok a => k a
  | Raise e => Raise e
  end.

Notation "'let*' x ':=' m 'in' k" := (bind m (fun x => k))
  (at level 10, x name, m at level 100, k at level 200).

(** Python truthiness ([bool(v)]). *)
Definition truthy (v : value) : bool :=
  match v with
  | PNone => false
  | PBool b => b
  | PInt n => negb (n =? 0)
  | PFloat bits => negb (Z.land bits (2 ^ 63 - 1) =? 0)
  | PStr s => negb (PyStr.is_empty s)
  | PList l => match l with [] => false | _ => true end
  | PDict d => match d with [] => false | _ => true end
  end.

(** [x or y] and [x and y], which return one of their operands. *)
Definition py_or (x y : value) : value := if truthy x then x else y.
Definition py_and (x y : value) : value := if truthy x then y else x.

(** [d[k]] as an option, [d.get(k, default)]. *)
Fixpoint dict_lookup (d : list (string * value)) (k : string) : option value :=
  match d with
  | [] => None
  | (k', v) :: r => if PyStr.eqb k' k then Some v else dict_lookup r k
  end.

Definition dict_get (d : list (string * value)) (k : string) (dflt : value)
  : value :=
  match dict_lookup d k with Some v => v | None => dflt end.

(** ** VersionComparator *)

(** The leading run of [isdigit] characters of a part. *)
Fixpoint leading_digits (part : string) : string :=
  match part with
  | EmptyString => EmptyString
  | String ch r =>
      if PyStr.isdigit ch then String ch (leading_digits r) else EmptyString
  end.

(** The body of the loop over [parts] in [parse_semver]. *)
Fixpoint parse_parts (parts : list string) : result (list Z) :=
  match parts with
  | [] => Ok []
  | part :: rest =>
      let num := leading_digits part in
      let* n := (if PyStr.is_empty num then Ok 0
                 else match PyStr.int_of num with
                      | Some n => Ok n
                      | None => Raise ValueError
                      end) in
      let* numbers := parse_parts rest in
      Ok (n :: numbers)
  end.

Definition parse_semver (version : value) : result (list Z) :=
  if negb (truthy version) then Ok []
  else
    match version with
    | PStr s =>
        let v := PyStr.strip s in
        let v := if PyStr.startswith "v" v || PyStr.startswith "V" v
                 then PyStr.drop1 v else v in
        let v := if PyStr.contains "-" v then PyStr.split_first "-" v
                 else v in
        parse_parts (PyStr.split "." v)
    | _ => Raise AttributeError
    end.

(** [for l, r in zip(left, right)]: the first differing pair decides. *)
Fixpoint compare_pairs (ps : list (Z * Z)) : Z :=
  match ps with
  | [] => 0
  | (l, r) :: rest =>
      if l >? r then 1 else if l <? r then -1 else compare_pairs rest
  end.

(** [xs += [0] * k] for an int [k] that may be negative. *)
Definition pad_zeros (xs : list Z) (max_len : nat) : list Z :=
  xs ++ repeat 0 (max_len - length xs)%nat.

Definition compare_semver (a b : value) : result Z :=
  if negb (truthy a) && negb (truthy b) then Ok 0
  else if truthy a && negb (truthy b) then Ok 1
  else if truthy b && negb (truthy a) then Ok (-1)
  else
    let* left := parse_semver (py_or a (PStr "")) in
    let* right := parse_semver (py_or b (PStr "")) in
    let max_len := Nat.max (length left) (length right) in
    let left := pad_zeros left max_len in
    let right := pad_zeros right max_len in
    Ok (compare_pairs (combine left right)).

(** ** ReleaseResolver *)

(** The triple [(url, filename, tag_name)] the resolver returns. *)
Definition release : Type := value * value * value.

Definition not_found : release := (PNone, PNone, PNone).

(** [all(k.lower() in name for k in keywords)] *)
Definition all_keywords_in (keywords : list string) (name : string) : bool :=
  forallb (fun k => PyStr.contains (PyStr.lower k) name) keywords.

(** The inner loop [for asset in assets] of one tag: [Ok (Some r)] is the
    [return], [Ok None] is falling out of the loop. *)
Fixpoint scan_assets (keywords : list string) (tag : list (string * value))
    (assets : list value) : result (option release) :=
  match assets with
  | [] => Ok None
  | asset :: rest =>
      match asset with
      | PDict a =>
          match dict_lookup a "name" with
          | None => Raise KeyError
          | Some (PStr n) =>
              let name := PyStr.lower n in
              if all_keywords_in keywords name then
                let tag_name :=
                  py_or (dict_get tag "tag_name" PNone)
                        (dict_get tag "name" PNone) in
                match dict_lookup a "browser_download_url" with
                | None => Raise KeyError
                | Some url => Ok (Some (url, PStr n, tag_name))
                end
              else scan_assets keywords tag rest
          | Some _ => Raise AttributeError
          end
      | _ => Raise AssertionError
      end
  end.

(** The filter of the outer loop:
    [not prerelease and tag.get("prerelease", False) or tag.get("draft", False)]. *)
Definition skip_condition (prerelease : bool) (tag : list (string * value))
  : value :=
  py_or (py_and (PBool (negb prerelease))
                (dict_get tag "prerelease" (PBool false)))
        (dict_get tag "draft" (PBool false)).

(** The outer loop [for tag in tags], ending in the [ValueError] raised
    when no asset matched. *)
Fixpoint scan_tags (prerelease : bool) (keywords : list string)
    (tags : list value) : result release :=
  match tags with
  | [] => Raise ValueError
  | tag :: rest =>
      match tag with
      | PDict t =>
          if truthy (skip_condition prerelease t)
          then scan_tags prerelease keywords rest
          else
            match dict_get t "assets" (PList []) with
            | PList assets =>
                let* r := scan_assets keywords t assets in
                match r with
                | Some found => Ok found
                | None => scan_tags prerelease keywords rest
                end
            | _ => Raise AssertionError
            end
      | _ => Raise AssertionError
      end
  end.

(** The body of the [try] block.  [response] is what the request, the
    read, the decoding and [json.loads] together produce: the decoded
    document or the exception one of them raised. *)
Definition resolve_release (response : result value) (keywords : list string)
    (prerelease : bool) : result release :=
  let* tags := response in
  match tags with
  | PList l =>
      if negb (truthy tags) then Raise ValueError
      else scan_tags prerelease keywords l
  | _ => Raise AssertionError
  end.

(** [network repo] is the response of the release feed of [repo]. *)
Definition get_latest_release_url (network : string -> result value)
    (repo : string) (keywords : list string) (prerelease : bool) : release :=
  match resolve_release (network repo) keywords prerelease with
  | Ok found => found
  | Raise _ => not_found
  end.

(** ** ProgressDownloader: the rendering helpers of [download_file] *)

(** A non-negative integer in decimal. *)
Definition decimal (n : Z) : string :=
  NilZero.string_of_uint (N.to_uint (Z.to_N n)).

(** Rounding of the quotient [n / d] to the nearest integer, ties to the
    even one, as floating-point formatting rounds an exact binary value. *)
Definition round_half_even (n d : Z) : Z :=
  let q := n / d in
  let r := n mod d in
  if 2 * r <? d then q
  else if d <? 2 * r then q + 1
  else if Z.even q then q else q + 1.

(** [f"{s:.1f}"] for the value [n / d]. *)
Definition format_1f (n d : Z) : string :=
  let tenths := round_half_even (10 * n) d in
  decimal (tenths / 10) +:+ "." +:+ decimal (tenths mod 10).

(** The loop over the units in [to_file_size]: [den] is the power of 1024
    the size has been divided by so far. *)
Fixpoint scale_units (size den : Z) (unit : string) (more : list string)
  : string :=
  match more with
  | [] => format_1f size den +:+ " " +:+ unit
  | next :: rest =>
      if size <? 1024 * den then format_1f size den +:+ " " +:+ unit
      else scale_units size (1024 * den) next rest
  end.

(** [float(n)] for a non-negative integer: [n] itself when it fits the
    53 bits of a binary64 significand, else the nearest integer with 53
    significant bits, ties to the even significand; an [OverflowError]
    when that is beyond the largest binary64 number. *)
Definition float_of_int (n : Z) : result Z :=
  let shift := Z.log2 n - 52 in
  if shift <=? 0 then Ok n
  else
    let s := round_half_even n (2 ^ shift) * 2 ^ shift in
    if s <? 2 ^ 1024 then Ok s else Raise OverflowError.

(** [to_file_size(size)].  After [s = float(size)] the value of [s] is
    kept as the exact fraction [s / den]: dividing a binary64 number that
    is at least 1024 by 1024 is exact, and the formatting rounds the exact
    value. *)
Definition to_file_size (size : option Z) : result string :=
  match size with
  | None => Ok "--"
  | Some n =>
      if n <? 0 then Ok "--"
      else
        let* s := float_of_int n in
        Ok (scale_units s 1 "B" ["KB"; "MB"; "GB"; "TB"])
  end.

(** [f"{n:02d}"] for a non-negative [n]. *)
Definition format_02d (n : Z) : string :=
  if n <? 10 then "0" +:+ decimal n else decimal n.

(** [seconds_to_hms(sec)]; a finite float is the rational number it
    denotes, and [int(sec)] of a non-negative [sec] is its floor. *)
Definition seconds_to_hms (sec : option Q) : string :=
  match sec with
  | None => "--:--:--"
  | Some q =>
      if negb (Qle_bool 0 q) then "--:--:--"
      else
        let sec := Qfloor q in
        let h := sec / 3600 in
        let m := (sec mod 3600) / 60 in
        let s := sec mod 60 in
        format_02d h +:+ ":" +:+ format_02d m +:+ ":" +:+ format_02d s
  end.

(** [int(res.headers.get("Content-Length", 0) or 0)]: [header] is the
    header's text, [None] when the response has none. *)
Definition size_total_of (header : option string) : result Z :=
  match header with
  | None => Ok 0
  | Some text =>
      if PyStr.is_empty text then Ok 0
      else match PyStr.int_text text with
           | Some n => Ok n
           | None => Raise ValueError
           end
  end.

(** [eta] as the read loop sets it: [None] unless the total size and the
    speed are positive, else the quotient, taken exactly (the float
    division rounds it, and raises [OverflowError] when the difference
    is beyond the range of a float). *)
Definition eta_of (size_total size_received : Z) (speed : Q) : option Q :=
  if (size_total >? 0) && negb (Qle_bool speed 0)
  then Some (inject_Z (size_total - size_received) / speed)%Q
  else None.

(** The progress line of one iteration of the read loop.  The percentage
    and the speed are renderings of floating-point measurements of the
    wall clock and are taken as already rendered. *)
Definition progress_str (size_received size_total : Z)
    (percentage speed_text : string) (eta : option Q) : result string :=
  let* received := to_file_size (Some size_received) in
  let* total := to_file_size (Some size_total) in
  Ok (received +:+ "/" +:+ total
      +:+ " (" +:+ percentage +:+ ") | " +:+ speed_text
      +:+ " | ETA " +:+ seconds_to_hms eta).

(** ** VersionLedger *)

(** What is found at the path of the version file: the existence check
    itself raises (an [OSError] other than "not found", such as a parent
    directory that may not be searched or a name that is too long); or it
    answers that there is nothing; or there is a file on which [open] and
    [json.load] yield a document or raise. *)
Inductive version_file : Type :=
| FileCheckRaises
| FileMissing
| FileContent (loaded : result value).

Section Ledger.

(** [str(v)] of a float, a list or a dict is the interpreter's [repr],
    which is not part of this program.  An integer that [json.load]
    returns has at most [int_max_str_digits] digits, which [str]
    converts. *)
Variable repr : value -> string.

Definition py_str (v : value) : string :=
  match v with
  | PStr s => s
  | PNone => "None"
  | PBool true => "True"
  | PBool false => "False"
  | PInt n => if n <? 0 then "-" +:+ decimal (- n) else decimal n
  | _ => repr v
  end.

(** [{str(k): str(v) for k, v in versions.items()}] *)
Definition stringify_items (items : list (string * value))
  : gmap string value :=
  fold_left (fun m kv => <[fst kv := PStr (py_str (snd kv))]> m) items ∅.

(** The body of the [try] block: [Ok (Some m)] is its [return]. *)
Definition load_versions (loaded : result value)
  : result (option (gmap string value)) :=
  let* data := loaded in
  match data with
  | PDict d =>
      match dict_get d "versions" (PDict []) with
      | PDict versions => Ok (Some (stringify_items versions))
      | _ => Ok None
      end
  | _ => Raise AttributeError
  end.

(** The existence check is made before the [try] block, so what it
    raises reaches the caller. *)
Definition read_versions_file (file : version_file)
  : result (gmap string value) :=
  match file with
  | FileCheckRaises => Raise OSError
  | FileMissing => Ok ∅
  | FileContent loaded =>
      match load_versions loaded with
      | Ok (Some versions) => Ok versions
      | Ok None => Ok ∅
      | Raise _ => Ok ∅
      end
  end.

End Ledger.

(** [local_versions.get(component)] *)
Definition ledger_get (versions : gmap string value) (component : string)
  : value :=
  default PNone (versions !! component).

(** [if version: versions[component] = version] of [main]. *)
Definition record_version (versions : gmap string value) (component : string)
    (version : value) : gmap string value :=
  if truthy version then <[component := version]> versions else versions.

(** ** Host platform *)

Inductive os : Type := Windows | Linux | Darwin.
Inductive arch : Type := X86_64 | Aarch64.

Definition MFW_REPO : string := "MaaXYZ/MaaFramework".
Definition MXU_REPO : string := "MistEO/MXU".

Definition OS_KEYWORD (o : os) : string :=
  match o with
  | Windows => "win"
  | Linux => "linux"
  | Darwin => "macos"
  end.

Definition ARCH_KEYWORD (a : arch) : string :=
  match a with
  | X86_64 => "x86_64"
  | Aarch64 => "aarch64"
  end.

Definition MFW_DIST_NAME (o : os) : string :=
  match o with
  | Windows => "MaaFramework.dll"
  | Linux => "libMaaFramework.so"
  | Darwin => "libMaaFramework.dylib"
  end.

Definition MXU_DIST_NAME (o : os) : string :=
  match o with
  | Windows => "mxu.exe"
  | _ => "mxu"
  end.

(** ** Paths

    A path is the text [str(path)] that [pathlib] gives a POSIX path.
    (On a Windows host [pathlib] writes the separator as a backslash and
    knows drives; that flavour is outside this model.) *)

(** [s.endswith(c)] for one character. *)
Fixpoint endswith_char (c : ascii) (s : string) : bool :=
  match s with
  | EmptyString => false
  | String a EmptyString => Ascii.eqb a c
  | String _ r => endswith_char c r
  end.

(** [posixpath.join(parent, name)]: an absolute [name] replaces
    [parent]. *)
Definition posix_join (parent name : string) : string :=
  if PyStr.startswith "/" name then name
  else if PyStr.is_empty parent || endswith_char "/" parent
       then parent +:+ name
       else parent +:+ "/" +:+ name.

(** The root of a path text: "//" for exactly two leading slashes, "/"
    for any other number of them, none for a relative path. *)
Definition path_root (p : string) : string :=
  if PyStr.startswith "//" p && negb (PyStr.startswith "///" p) then "//"
  else if PyStr.startswith "/" p then "/"
  else "".

(** The components of a path text; empty ones and "." are dropped. *)
Definition path_parts (p : string) : list string :=
  List.filter (fun x => negb (PyStr.is_empty x) && negb (PyStr.eqb x "."))
    (PyStr.split "/" p).

(** ["/".join(parts)] *)
Fixpoint join_parts (parts : list string) : string :=
  match parts with
  | [] => ""
  | [x] => x
  | x :: rest => x +:+ "/" +:+ join_parts rest
  end.

(** [str(Path(p))] *)
Definition path_text (p : string) : string :=
  let text := path_root p +:+ join_parts (path_parts p) in
  if PyStr.is_empty text then "." else text.

(** [parent / name] *)
Definition joinpath (parent name : string) : string :=
  path_text (posix_join parent name).
Arguments joinpath : simpl never.

(** ** InstallOrchestrator and LockedReplaceInstaller *)

(** How one call of [shutil.rmtree] or [Path.unlink] ends. *)
Inductive removal_outcome : Type :=
| Removed
| RaisesPermissionError
| RaisesOther.

(** How one call of [input] ends. *)
Inductive input_outcome : Type :=
| Line (text : string)
| EndOfInput.

(** How the block that unpacks the archive and copies its payload ends:
    an exception inside it, no payload found (no [bin] directory, resp.
    no file named as the artifact), or the payload copied. *)
Inductive unpack_outcome : Type :=
| UnpackRaises
| PayloadMissing
| PayloadCopied.

(** The world around one install call.  Every answer is fixed by the
    environment; removal attempts and prompts are numbered from 0 in the
    order in which the call makes them. *)
Record env : Type := {
  host_os : os;
  host_arch : arch;
  tmp_dir : string;
  path_exists : string -> bool;
  network : string -> result value;
  download_file : value -> string -> bool;
  removal : string -> nat -> removal_outcome;
  operator : nat -> input_outcome;
  unpack : string -> string -> unpack_outcome
}.

(** What a call did to the world, in order. *)
Inductive event : Type :=
| EvExists (path : string)
| EvReleases (repo : string)
| EvDownload (url : value) (dest : string)
| EvRemove (path : string)
| EvPrompt
| EvUnpack (archive dest : string).

(** [(ok, version, downloaded)] *)
Definition install_result : Type := bool * value * bool.

(** How the removal loop is left: by [break], by the [return] of a
    failure, or by an exception that no handler of the loop catches. *)
Inductive loop_exit : Type :=
| LoopBreak
| LoopReturn (r : install_result)
| LoopRaise (e : exn).

(** The [while True] loop around the removal of [target], which the two
    installers share but for the removal call ([shutil.rmtree], resp.
    [Path.unlink]) and the wording of the messages.  [attempt] counts the
    attempts made before; [None] is a loop that is still running when the
    fuel is used up. *)
Fixpoint removal_loop (e : env) (target : string) (local_version : value)
    (fuel attempt : nat) : option (loop_exit * list event) :=
  match fuel with
  | O => None
  | S fuel' =>
      match removal e target attempt with
      | Removed => Some (LoopBreak, [EvRemove target])
      | RaisesPermissionError =>
          match operator e attempt with
          | EndOfInput => Some (LoopRaise EOFError, [EvRemove target; EvPrompt])
          | Line text =>
              let cmd := PyStr.lower (PyStr.strip text) in
              if PyStr.eqb cmd "q"
              then Some (LoopReturn (false, local_version, false),
                         [EvRemove target; EvPrompt])
              else
                match removal_loop e target local_version fuel' (S attempt) with
                | Some (exit, log) =>
                    Some (exit, EvRemove target :: EvPrompt :: log)
                | None => None
                end
          end
      | RaisesOther =>
          Some (LoopReturn (false, local_version, false), [EvRemove target])
      end
  end.

(** The unpack-and-copy block and the [return] that follows it. *)
Definition unpack_and_install (e : env) (archive dest : string)
    (local_version remote_version : value) : install_result :=
  match unpack e archive dest with
  | UnpackRaises => (false, local_version, false)
  | PayloadMissing => (false, local_version, false)
  | PayloadCopied => (true, py_or remote_version local_version, true)
  end.

(** [update_mode and installed and local_version and remote_version and
    compare_semver(local_version, remote_version) >= 0] *)
Definition up_to_date (update_mode installed : bool)
    (local_version remote_version : value) : result bool :=
  if update_mode && installed && truthy local_version && truthy remote_version
  then let* c := compare_semver local_version remote_version in Ok (c >=? 0)
  else Ok false.

(** [install_maafw].  The root is taken as already resolved
    ([install_root.resolve()] is [install_root]); [None] is a removal loop
    that is still running when the fuel is used up. *)
Definition install_maafw (e : env) (fuel : nat) (install_root : string)
    (skip_if_exist update_mode : bool) (local_version : value)
  : option (result install_result * list event) :=
  let maafw_dest := joinpath install_root "maafw" in
  let artifact := joinpath maafw_dest (MFW_DIST_NAME (host_os e)) in
  let maafw_installed := path_exists e artifact in
  if skip_if_exist && maafw_installed
  then Some (Ok (true, local_version, false), [EvExists artifact])
  else
    let '(url, filename, remote_version) :=
      get_latest_release_url (network e) MFW_REPO
        ["maa"; OS_KEYWORD (host_os e); ARCH_KEYWORD (host_arch e)] true in
    let looked_up := [EvExists artifact; EvReleases MFW_REPO] in
    if negb (truthy url) || negb (truthy filename)
    then Some (Ok (false, local_version, false), looked_up)
    else
      match up_to_date update_mode maafw_installed local_version
              remote_version with
      | Raise x => Some (Raise x, looked_up)
      | Ok true => Some (Ok (true, local_version, false), looked_up)
      | Ok false =>
          match filename with
          | PStr name =>
              let download_path := joinpath (tmp_dir e) name in
              let downloaded :=
                looked_up ++ [EvDownload url download_path] in
              if negb (download_file e url download_path)
              then Some (Ok (false, local_version, false), downloaded)
              else if path_exists e maafw_dest then
                match removal_loop e maafw_dest local_version fuel 0 with
                | None => None
                | Some (LoopBreak, log) =>
                    Some (Ok (unpack_and_install e download_path maafw_dest
                                local_version remote_version),
                          downloaded ++ EvExists maafw_dest :: log
                          ++ [EvUnpack download_path maafw_dest])
                | Some (LoopReturn r, log) =>
                    Some (Ok r, downloaded ++ EvExists maafw_dest :: log)
                | Some (LoopRaise x, log) =>
                    Some (Raise x, downloaded ++ EvExists maafw_dest :: log)
                end
              else
                Some (Ok (unpack_and_install e download_path maafw_dest
                            local_version remote_version),
                      downloaded ++ [EvExists maafw_dest;
                                     EvUnpack download_path maafw_dest])
          | _ => Some (Raise TypeError, looked_up)
          end
      end.

(** [install_mxu], likewise. *)
Definition install_mxu (e : env) (fuel : nat) (install_root : string)
    (skip_if_exist update_mode : bool) (local_version : value)
  : option (result install_result * list event) :=
  let mxu_path := joinpath install_root (MXU_DIST_NAME (host_os e)) in
  let mxu_installed := path_exists e mxu_path in
  if skip_if_exist && mxu_installed
  then Some (Ok (true, local_version, false), [EvExists mxu_path])
  else
    let '(url, filename, remote_version) :=
      get_latest_release_url (network e) MXU_REPO
        ["mxu"; OS_KEYWORD (host_os e); ARCH_KEYWORD (host_arch e)] true in
    let looked_up := [EvExists mxu_path; EvReleases MXU_REPO] in
    if negb (truthy url) || negb (truthy filename)
    then Some (Ok (false, local_version, false), looked_up)
    else
      match up_to_date update_mode mxu_installed local_version
              remote_version with
      | Raise x => Some (Raise x, looked_up)
      | Ok true => Some (Ok (true, local_version, false), looked_up)
      | Ok false =>
          match filename with
          | PStr name =>
              let download_path := joinpath (tmp_dir e) name in
              let downloaded :=
                looked_up ++ [EvDownload url download_path] in
              if negb (download_file e url download_path)
              then Some (Ok (false, local_version, false), downloaded)
              else if path_exists e mxu_path then
                match removal_loop e mxu_path local_version fuel 0 with
                | None => None
                | Some (LoopBreak, log) =>
                    Some (Ok (unpack_and_install e download_path install_root
                                local_version remote_version),
                          downloaded ++ EvExists mxu_path :: log
                          ++ [EvUnpack download_path install_root])
                | Some (LoopReturn r, log) =>
                    Some (Ok r, downloaded ++ EvExists mxu_path :: log)
                | Some (LoopRaise x, log) =>
                    Some (Raise x, downloaded ++ EvExists mxu_path :: log)
                end
              else
                Some (Ok (unpack_and_install e download_path install_root
                            local_version remote_version),
                      downloaded ++ [EvExists mxu_path;
                                     EvUnpack download_path install_root])
          | _ => Some (Raise TypeError, looked_up)
          end
      end.

(** An event that touches the network. *)
Definition is_network_event (ev : event) : bool :=
  match ev with
  | EvReleases _ | EvDownload _ _ => true
  | _ => false
  end.

(** ** Writing the version file *)

(** How [write_versions_file] ends: creating the directory, opening the
    file and [json.dump] all succeed, or one of them raises; the
    exception is swallowed and what is then found at the path
    ([left_behind]) is not the program's doing. *)
Inductive write_outcome : Type :=
| WriteSucceeds
| WriteRaises (left_behind : version_file).

(** The document [{"versions": versions}] handed to [json.dump]; a
    mapping lists its entries in some order without repeating a key. *)
Definition versions_document (versions : gmap string value) : value :=
  PDict [("versions", PDict (map_to_list versions))].

(** What is at the path after [write_versions_file(path, versions)]: a
    successful write leaves a file from which [json.load] reads the
    document back. *)
Definition write_versions_file (outcome : write_outcome)
    (versions : gmap string value) : version_file :=
  match outcome with
  | WriteSucceeds => FileContent (Ok (versions_document versions))
  | WriteRaises left_behind => left_behind
  end.

(** ** Commands, submodules, build script and [main] *)

(** How [subprocess.check_call] ends: exit status zero, a non-zero exit
    status ([CalledProcessError]), or another exception such as a program
    that cannot be started. *)
Inductive command_outcome : Type :=
| CommandSucceeds
| CommandFails
| CommandCannotStart.

(** The world around [main]: the world of the install calls, the project
    directory, the interpreter's path, the commands, the version file and
    how writing it ends. *)
Record host : Type := {
  world : env;
  project_base : string;
  python : string;
  command : list string -> command_outcome;
  version_file_state : version_file;
  write_outcome_of : write_outcome
}.

(** What [main] did, in order. *)
Inductive step : Type :=
| StepCommand (cmd : list string)
| StepEvent (ev : event)
| StepWrite (path : string) (versions : gmap string value).

Definition run_command (h : host) (cmd : list string)
  : result bool * list step :=
  match command h cmd with
  | CommandSucceeds => (Ok true, [StepCommand cmd])
  | CommandFails => (Ok false, [StepCommand cmd])
  | CommandCannotStart => (Raise OtherError, [StepCommand cmd])
  end.

Definition update_submodules (h : host) (skip_if_exist : bool)
  : result bool * list step :=
  let license :=
    joinpath (joinpath (joinpath (project_base h) "assets") "MaaCommonAssets")
      "LICENSE" in
  let git := ["git"; "submodule"; "update"; "--init"; "--recursive"] in
  if negb skip_if_exist then run_command h git
  else if negb (path_exists (world h) license) then
    let '(r, log) := run_command h git in
    (r, StepEvent (EvExists license) :: log)
  else (Ok true, [StepEvent (EvExists license)]).

Definition run_build_script (h : host) : result bool * list step :=
  let script_path :=
    joinpath (joinpath (project_base h) "tools") "build_and_install.py" in
  run_command h [python h; script_path].

(** The number of prompts a log records. *)
Definition prompts_in (log : list event) : nat :=
  length (List.filter (fun ev => match ev with EvPrompt => true | _ => false end)
            log).

(** The world as a later call finds it: the operator's answers already
    read are gone. *)
Definition after_prompts (e : env) (consumed : nat) : env :=
  {| host_os := host_os e;
     host_arch := host_arch e;
     tmp_dir := tmp_dir e;
     path_exists := path_exists e;
     network := network e;
     download_file := download_file e;
     removal := removal e;
     operator := fun i => operator e (consumed + i)%nat;
     unpack := unpack e |}.

(** How [main] ends: by returning, by [sys.exit(code)], or by an
    exception nothing catches. *)
Inductive exit_status : Type :=
| ExitOk
| ExitCode (code : Z)
| Uncaught (e : exn).

Section Main.

Variable repr : value -> string.

(** [main] from the banner on, with the ledger [local_versions] it has
    read: the status, the steps taken and the version file as it is left;
    [None] when an install call is still looping when the fuel is used
    up. *)
Definition main_from (h : host) (fuel : nat) (update ci : bool)
    (local_versions : gmap string value)
  : option (exit_status * list step * version_file) :=
  let install_dir := joinpath (project_base h) "install" in
  let version_file := joinpath install_dir "version.json" in
  let disk := version_file_state h in
  let '(submodules, log0) := update_submodules h (negb update) in
  match submodules with
  | Raise x => Some (Uncaught x, log0, disk)
  | Ok false => Some (ExitCode 1, log0, disk)
  | Ok true =>
      let '(built, log_build) := run_build_script h in
      let log1 := log0 ++ log_build in
      match built with
      | Raise x => Some (Uncaught x, log1, disk)
      | Ok false => Some (ExitCode 1, log1, disk)
      | Ok true =>
          match install_maafw (world h) fuel install_dir (negb update) update
                  (ledger_get local_versions "maafw") with
          | None => None
          | Some (Raise x, log_maafw) =>
              Some (Uncaught x, log1 ++ map StepEvent log_maafw, disk)
          | Some (Ok (ok, maafw_version, maafw_downloaded), log_maafw) =>
              let log2 := log1 ++ map StepEvent log_maafw in
              if negb ok then Some (ExitCode 1, log2, disk)
              else
                let versions :=
                  record_version local_versions "maafw" maafw_version in
                match install_mxu
                        (after_prompts (world h) (prompts_in log_maafw))
                        fuel install_dir (negb update) update
                        (ledger_get local_versions "mxu") with
                | None => None
                | Some (Raise x, log_mxu) =>
                    Some (Uncaught x, log2 ++ map StepEvent log_mxu, disk)
                | Some (Ok (ok, mxu_version, mxu_downloaded), log_mxu) =>
                    let log3 := log2 ++ map StepEvent log_mxu in
                    if negb ok then Some (ExitCode 1, log3, disk)
                    else
                      let versions :=
                        record_version versions "mxu" mxu_version in
                      if negb ci && (maafw_downloaded || mxu_downloaded)
                      then Some (ExitOk,
                                 log3 ++ [StepWrite version_file versions],
                                 write_versions_file (write_outcome_of h)
                                   versions)
                      else Some (ExitOk, log3, disk)
                end
          end
      end
  end.

(** [main] with its two flags [--update] and [--ci].  Reading the version
    file is its first step, and nothing catches what that raises. *)
Definition main (h : host) (fuel : nat) (update ci : bool)
  : option (exit_status * list step * version_file) :=
  match read_versions_file repr (version_file_state h) with
  | Raise x => Some (Uncaught x, [], version_file_state h)
  | Ok local_versions => main_from h fuel update ci local_versions
  end.

End Main.

(** ** ProgressDownloader: the read loop of [download_file] *)

(** What [download_file] meets: [urlopen] or the opening of the
    destination raises, or the response arrives with its Content-Length
    header (if any) and its chunks, each with the value of
    [time.time() - start_ts] measured after it was written; [ending] is
    the exception that the read or the write after the last chunk
    raises, [None] when the stream just ends. *)
Inductive connection : Type :=
| ConnectFails (e : exn)
| Connected (content_length : option string) (chunks : list (string * Q))
    (ending : option exn).

Section ReadLoop.

(** The progress line of an iteration, which the loop computes with
    floating-point arithmetic from the bytes received so far, the total
    size and the elapsed time, or the exception that this computation
    raises (an [OverflowError] when a size or the ETA is beyond the range
    of a float). *)
Variable progress : Z -> Z -> Q -> result string.

(** The [while True] loop: whether it ends without an exception, the
    bytes written to the destination and the progress lines printed.  A
    chunk is written before its progress line is computed. *)
Fixpoint read_loop (size_total : Z) (chunks : list (string * Q))
    (ending : option exn) (size_received : Z) (cached_progress_str : string)
  : bool * string * list string :=
  match chunks with
  | [] =>
      match ending with
      | None => (true, EmptyString, [])
      | Some _ => (false, EmptyString, [])
      end
  | (chunk, elapsed) :: rest =>
      if PyStr.is_empty chunk then (true, EmptyString, [])
      else
        let size_received := size_received + Z.of_nat (String.length chunk) in
        match progress size_received size_total elapsed with
        | Raise _ => (false, chunk, [])
        | Ok progress_str =>
            let '(ok, data, lines) :=
              read_loop size_total rest ending size_received progress_str in
            (ok, chunk +:+ data,
             if PyStr.eqb progress_str cached_progress_str then lines
             else progress_str :: lines)
        end
  end.

(** [download_file]: the value returned, the content of the destination
    file if it was opened, and the progress lines printed. *)
Definition download_file_run (c : connection)
  : bool * option string * list string :=
  match c with
  | ConnectFails _ => (false, None, [])
  | Connected content_length chunks ending =>
      match size_total_of content_length with
      | Raise _ => (false, Some EmptyString, [])
      | Ok size_total =>
          let '(ok, data, lines) :=
            read_loop size_total chunks ending 0 EmptyString in
          (ok, Some data, lines)
      end
  end.

End ReadLoop.

(** * Specifications *)

(** ** Version comparison *)

(** The [i]-th component of a parsed version, 0 beyond its end: what
    right-padding with zeros makes of it. *)
Definition component (xs : list Z) (i : nat) : Z := nth i xs 0.

(** "Compared component-wise left to right, the first differing
    component decides." *)
Inductive first_difference (l r : list Z) : Z -> Prop :=
| fd_equal :
    (forall i, component l i = component r i) ->
    first_difference l r 0
| fd_greater (i : nat) :
    (forall j, (j < i)%nat -> component l j = component r j) ->
    component l i > component r i ->
    first_difference l r 1
| fd_less (i : nat) :
    (forall j, (j < i)%nat -> component l j = component r j) ->
    component l i < component r i ->
    first_difference l r (-1).

(** The comparison of two parsed versions as the last lines of
    [compare_semver] compute it. *)
Definition compare_versions (l r : list Z) : Z :=
  let max_len := Nat.max (length l) (length r) in
  compare_pairs (combine (pad_zeros l max_len) (pad_zeros r max_len)).


(** A well-formed dotted numeric version: one or more non-empty groups of
    decimal digits separated by single dots.  [expect_digit] holds at the
    start of a group. *)
Fixpoint dotted_from (expect_digit : bool) (s : string) : bool :=
  match s with
  | EmptyString => negb expect_digit
  | String c r =>
      if PyStr.isdecimal c then dotted_from false r
      else if Ascii.eqb c "." then negb expect_digit && dotted_from true r
      else false
  end.

Definition dotted_numeric (s : string) : bool := dotted_from true s.

(** Every character of a string satisfies [p]. *)
Fixpoint all_chars (p : ascii -> bool) (s : string) : bool :=
  match s with
  | EmptyString => true
  | String c r => p c && all_chars p r
  end.

(** A character on which [isdigit] and [int] agree. *)
Definition plain (c : ascii) : bool := implb (PyStr.isdigit c) (PyStr.isdecimal c).

(** The length of the run of [isdigit] characters a string starts with. *)
Fixpoint digit_run (s : string) : Z :=
  match s with
  | EmptyString => 0
  | String c r => if PyStr.isdigit c then 1 + digit_run r else 0
  end.

(** No run of digits in the string is longer than [int()] accepts. *)
Fixpoint convertible (s : string) : bool :=
  match s with
  | EmptyString => true
  | String _ r => (digit_run s <=? PyStr.int_max_str_digits) && convertible r
  end.

(** A version string with a group of 4301 digits. *)
Definition long_version : string := Pos.iter (String "1") "" 4301.

(** ** Release resolution *)

(** [tag.get(key, False)] is truthy: the tag is "marked" with [key]. *)
Definition marked (tag : list (string * value)) (key : string) : bool :=
  truthy (dict_get tag key (PBool false)).

(** "(reject prerelease AND tag.prerelease) OR tag.draft" *)
Definition excluded (prerelease : bool) (tag : list (string * value)) : bool :=
  (negb prerelease && marked tag "prerelease") || marked tag "draft".

(** The assets a tag lists, in listed order. *)
Definition assets_of (tag : list (string * value)) : list value :=
  match dict_get tag "assets" (PList []) with
  | PList assets => assets
  | _ => []
  end.

(** The lower-cased filename of the asset contains every lower-cased
    keyword. *)
Definition asset_matches (keywords : list string) (asset : value) : bool :=
  match asset with
  | PDict a =>
      match dict_lookup a "name" with
      | Some (PStr n) => all_keywords_in keywords (PyStr.lower n)
      | _ => false
      end
  | _ => false
  end.

(** An asset as the feed documents it: an object with a string [name]
    and a [browser_download_url]. *)
Definition well_formed_asset (asset : value) : bool :=
  match asset with
  | PDict a =>
      match dict_lookup a "name", dict_lookup a "browser_download_url" with
      | Some (PStr _), Some _ => true
      | _, _ => false
      end
  | _ => false
  end.

(** A tag as the feed documents it: an object whose [assets], when
    listed, are a list of well-formed assets. *)
Definition well_formed_tag (tag : value) : bool :=
  match tag with
  | PDict t =>
      match dict_get t "assets" (PList []) with
      | PList assets => forallb well_formed_asset assets
      | _ => false
      end
  | _ => false
  end.

(** Download URL, filename and tag name of an asset of a tag. *)
Definition release_of (tag : list (string * value)) (asset : value) : release :=
  match asset with
  | PDict a =>
      (dict_get a "browser_download_url" PNone,
       dict_get a "name" PNone,
       py_or (dict_get tag "tag_name" PNone) (dict_get tag "name" PNone))
  | _ => not_found
  end.

(** The assets of the eligible tags, each with its tag: tags in feed
    order and, within a tag, assets in listed order. *)
Definition candidates (prerelease : bool) (tags : list value)
  : list (list (string * value) * value) :=
  flat_map
    (fun tag =>
       match tag with
       | PDict t => if excluded prerelease t then []
                    else map (pair t) (assets_of t)
       | _ => []
       end)
    tags.

(** The first candidate whose filename matches all keywords. *)
Definition first_match (prerelease : bool) (keywords : list string)
    (tags : list value) : option (list (string * value) * value) :=
  find (fun c => asset_matches keywords (snd c)) (candidates prerelease tags).

(** The feed of a response, empty when there is none. *)
Definition feed_of (response : result value) : list value :=
  match response with
  | Ok (PList tags) => tags
  | _ => []
  end.

(** Some eligible tag of the response has an asset matching all keywords. *)
Definition has_match (prerelease : bool) (keywords : list string)
    (response : result value) : bool :=
  existsb (fun c => asset_matches keywords (snd c))
    (candidates prerelease (feed_of response)).

(** ** Example feeds *)

Definition example_asset (name url : string) : value :=
  PDict [("name", PStr name); ("browser_download_url", PStr url)].

Definition example_tag (tag_name : string) (prerelease draft : bool)
    (assets : list value) : list (string * value) :=
  [("tag_name", PStr tag_name); ("prerelease", PBool prerelease);
   ("draft", PBool draft); ("assets", PList assets)].

Definition example_draft : list (string * value) :=
  example_tag "v3.0.0" false true
    [example_asset "MAA-win-x86_64-v3.0.0.zip" "https://dl/v3.0.0/win"].

Definition example_beta_assets : list value :=
  [example_asset "MAA-linux-x86_64-v2.1.0-beta.1.tar.gz" "https://dl/v2.1.0b/linux";
   example_asset "MAA-win-x86_64-v2.1.0-beta.1.zip" "https://dl/v2.1.0b/win"].

Definition example_beta : list (string * value) :=
  example_tag "v2.1.0-beta.1" true false example_beta_assets.

Definition example_old : list (string * value) :=
  example_tag "v1.0.0" false false
    [example_asset "MAA-win-aarch64-v1.0.0.zip" "https://dl/v1.0.0/win-arm";
     example_asset "MAA-win-x86_64-v1.0.0.zip" "https://dl/v1.0.0/win"].

Definition example_new : list (string * value) :=
  example_tag "v2.0.0" false false
    [example_asset "MAA-win-x86_64-v2.0.0.zip" "https://dl/v2.0.0/win"].

(** A feed in deliberately non-monotonic order: a draft, a pre-release,
    an old release and a newer one. *)
Definition example_feed : list value :=
  [PDict example_draft; PDict example_beta; PDict example_old;
   PDict example_new].

(** The feed of the second component: one release. *)
Definition example_mxu_feed : list value :=
  [ PDict (example_tag "v1.4.2" false false
             [example_asset "mxu-win-x86_64.zip" "https://dl/mxu/v1.4.2/win"]) ].

Definition example_network (repo : string) : result value :=
  if PyStr.eqb repo MXU_REPO then Ok (PList example_mxu_feed)
  else Ok (PList example_feed).

Definition example_keywords : list string := ["maa"; "win"; "x86_64"].

(** ** Installation *)

(** The normalised operator response is the cancel token. *)
Definition is_quit (text : string) : bool :=
  PyStr.eqb (PyStr.lower (PyStr.strip text)) "q".

(** Attempts [first .. first + count - 1] to remove [target] all hit a
    permission error and the operator answered each prompt with something
    other than the cancel token. *)
Definition held_open (e : env) (target : string) (first count : nat) : bool :=
  forallb
    (fun i =>
       match removal e target i, operator e i with
       | RaisesPermissionError, Line text => negb (is_quit text)
       | _, _ => false
       end)
    (seq first count).

(** The events of [count] failed attempts, each followed by a prompt. *)
Fixpoint retry_log (target : string) (count : nat) : list event :=
  match count with
  | O => []
  | S k => EvRemove target :: EvPrompt :: retry_log target k
  end.

(** The removal attempts and prompts of a log. *)
Definition removal_events (log : list event) : list event :=
  List.filter (fun ev => match ev with
                         | EvRemove _ | EvPrompt => true
                         | _ => false
                         end) log.

(** The conditions under which an install call gets as far as removing
    what is at [dest]: the release lookup finds an asset, the installed
    version is not reported up to date, the download succeeds and
    something exists at [dest]. *)
Definition reaches_removal (e : env) (repo product : string) (installed : bool)
    (dest : string) (update_mode : bool) (local_version : value) : bool :=
  let '(url, filename, remote_version) :=
    get_latest_release_url (network e) repo
      [product; OS_KEYWORD (host_os e); ARCH_KEYWORD (host_arch e)] true in
  truthy url && truthy filename
  && match up_to_date update_mode installed local_version remote_version with
     | Ok false => true
     | _ => false
     end
  && match filename with
     | PStr name => download_file e url (joinpath (tmp_dir e) name)
     | _ => false
     end
  && path_exists e dest.

(** The part that [install_maafw] and [install_mxu] have in common after
    their existence check, for a component of [repo] whose release assets
    are named after [product], whose previous installation is at [dest]
    and whose payload goes to [payload_dest]. *)
Definition fetch_and_install (e : env) (repo product : string)
    (installed : bool) (dest payload_dest : string) (update_mode : bool)
    (local_version : value) (fuel : nat)
  : option (result install_result * list event) :=
  let '(url, filename, remote_version) :=
    get_latest_release_url (network e) repo
      [product; OS_KEYWORD (host_os e); ARCH_KEYWORD (host_arch e)] true in
  if negb (truthy url) || negb (truthy filename)
  then Some (Ok (false, local_version, false), [EvReleases repo])
  else
    match up_to_date update_mode installed local_version remote_version with
    | Raise x => Some (Raise x, [EvReleases repo])
    | Ok true => Some (Ok (true, local_version, false), [EvReleases repo])
    | Ok false =>
        match filename with
        | PStr name =>
            let archive := joinpath (tmp_dir e) name in
            let downloaded := [EvReleases repo; EvDownload url archive] in
            if negb (download_file e url archive)
            then Some (Ok (false, local_version, false), downloaded)
            else if path_exists e dest then
              match removal_loop e dest local_version fuel 0 with
              | None => None
              | Some (exit, log) =>
                  Some (match exit with
                        | LoopBreak =>
                            Ok (unpack_and_install e archive payload_dest
                                  local_version remote_version)
                        | LoopReturn r => Ok r
                        | LoopRaise x => Raise x
                        end,
                        downloaded ++ EvExists dest :: log
                        ++ match exit with
                           | LoopBreak => [EvUnpack archive payload_dest]
                           | _ => []
                           end)
              end
            else
              Some (Ok (unpack_and_install e archive payload_dest
                          local_version remote_version),
                    downloaded ++ [EvExists dest; EvUnpack archive payload_dest])
        | _ => Some (Raise TypeError, [EvReleases repo])
        end
    end.

(** The contract of the retry loop, for an install call [install] (a
    function of the fuel) whose first [n] removal attempts hit a
    permission error and were answered with something other than the
    cancel token: the cancel token at attempt [n] ends the call with a
    failure; another exception at attempt [n] ends it with a failure and
    without a prompt; the call does not end before attempt [n], and when
    it ends it has made attempt [n] after the [n] answers (each answer was
    followed by a retry); and a removal that succeeds lets the call go on
    to a result. *)
Definition retry_contract (e : env) (dest : string) (local_version : value)
    (n : nat) (install : nat -> option (result install_result * list event))
  : Prop :=
  (forall text,
      removal e dest n = RaisesPermissionError ->
      operator e n = Line text -> is_quit text = true ->
      forall fuel, (n < fuel)%nat ->
      exists log,
        install fuel = Some (Ok (false, local_version, false), log)
        /\ removal_events log
           = retry_log dest n ++ [EvRemove dest; EvPrompt])
  /\ (removal e dest n = RaisesOther ->
      forall fuel, (n < fuel)%nat ->
      exists log,
        install fuel = Some (Ok (false, local_version, false), log)
        /\ removal_events log = retry_log dest n ++ [EvRemove dest])
  /\ (forall fuel, (fuel <= n)%nat -> install fuel = None)
  /\ (forall fuel r log,
      install fuel = Some (r, log) ->
      exists rest,
        removal_events log = retry_log dest n ++ EvRemove dest :: rest)
  /\ (removal e dest n = Removed ->
      forall fuel, (n < fuel)%nat ->
      exists r log,
        install fuel = Some (Ok r, log)
        /\ removal_events log = retry_log dest n ++ [EvRemove dest]).

(** An example world: both components installed, the operator answers
    the first prompt with Enter and the second with " Q ", and every
    removal attempt hits a permission error. *)
Definition example_env : env :=
  {| host_os := Windows;
     host_arch := X86_64;
     tmp_dir := "/tmp/setup";
     path_exists := fun _ => true;
     network := example_network;
     download_file := fun _ _ => true;
     removal := fun _ _ => RaisesPermissionError;
     operator := fun i => match i with O => Line "" | _ => Line " Q " end;
     unpack := fun _ _ => PayloadCopied |}.

(** ** Version ledger *)

(** A value of the ledger that is a string. *)
Definition is_str (v : value) : Prop := exists s, v = PStr s.

(** ** Further specifications *)

(** A version written as dotted decimal text: the components in decimal,
    joined by dots. *)
Fixpoint render_version (ns : list Z) : string :=
  match ns with
  | [] => ""
  | [n] => decimal n
  | n :: rest => decimal n +:+ "." +:+ render_version rest
  end.

(** A component that [int()] reads back from its decimal text: it is not
    negative and has at most [int_max_str_digits] digits. *)
Definition representable (n : Z) : Prop :=
  0 <= n < 10 ^ PyStr.int_max_str_digits.

(** The value of a decimal numeral read from the left, starting from
    [acc]. *)
Fixpoint uint_value (acc : Z) (d : Decimal.uint) : Z :=
  match d with
  | Decimal.Nil => acc
  | Decimal.D0 d => uint_value (10 * acc) d
  | Decimal.D1 d => uint_value (10 * acc + 1) d
  | Decimal.D2 d => uint_value (10 * acc + 2) d
  | Decimal.D3 d => uint_value (10 * acc + 3) d
  | Decimal.D4 d => uint_value (10 * acc + 4) d
  | Decimal.D5 d => uint_value (10 * acc + 5) d
  | Decimal.D6 d => uint_value (10 * acc + 6) d
  | Decimal.D7 d => uint_value (10 * acc + 7) d
  | Decimal.D8 d => uint_value (10 * acc + 8) d
  | Decimal.D9 d => uint_value (10 * acc + 9) d
  end.

(** A character of dotted decimal text. *)
Definition version_char (c : ascii) : bool :=
  PyStr.isdecimal c || Ascii.eqb c ".".

(** An asset on which the inner loop of the resolver raises when it
    reaches it: not an object, without a [name], with a [name] that is
    not a string, or matching the keywords without a
    [browser_download_url]. *)
Definition raising_asset (keywords : list string) (asset : value) : bool :=
  match asset with
  | PDict a =>
      match dict_lookup a "name" with
      | None => true
      | Some (PStr n) =>
          all_keywords_in keywords (PyStr.lower n)
          && match dict_lookup a "browser_download_url" with
             | None => true
             | Some _ => false
             end
      | Some _ => true
      end
  | _ => true
  end.

(** What every returned install result satisfies: a failure hands back
    the local version with the downloaded flag off; so does every result
    without a download; and a result flagged as downloaded is a success
    whose archive was downloaded and whose payload was copied. *)
Definition install_sound (e : env) (local_version : value)
    (run : option (result install_result * list event)) : Prop :=
  forall ok version downloaded log,
    run = Some (Ok (ok, version, downloaded), log) ->
    (ok = false -> version = local_version /\ downloaded = false)
    /\ (downloaded = false -> version = local_version)
    /\ (downloaded = true ->
        ok = true
        /\ exists url archive dest,
             In (EvDownload url archive) log
             /\ download_file e url archive = true
             /\ In (EvUnpack archive dest) log
             /\ unpack e archive dest = PayloadCopied).

(** A removal is attempted only on something that exists and only after
    the download of its replacement has succeeded: the log of a call that
    attempts one has, before any attempt, a download that succeeded. *)
Definition removal_guarded (e : env)
    (run : option (result install_result * list event)) : Prop :=
  forall r log target,
    run = Some (r, log) -> In (EvRemove target) log ->
    path_exists e target = true
    /\ exists head url archive tail,
         log = head ++ EvDownload url archive :: tail
         /\ (forall other, ~ In (EvRemove other) head)
         /\ download_file e url archive = true.


(** A call that needs no fuel and neither removes nor prompts. *)
Definition never_prompts
    (install : nat -> option (result install_result * list event)) : Prop :=
  (forall fuel, install fuel = install O)
  /\ exists r log, install O = Some (r, log) /\ removal_events log = [].

(** The example world with nothing installed yet. *)
Definition example_fresh_env : env :=
  {| host_os := Linux;
     host_arch := Aarch64;
     tmp_dir := "/tmp/setup";
     path_exists := fun _ => false;
     network := fun _ =>
       Ok (PList [PDict (example_tag "v1.4.2" false false
                           [example_asset "MAA-mxu-linux-aarch64.tar.gz"
                              "https://dl/all/v1.4.2/linux"])]);
     download_file := fun _ _ => true;
     removal := fun _ _ => RaisesPermissionError;
     operator := fun _ => EndOfInput;
     unpack := fun _ _ => PayloadCopied |}.


(** The ledgers a log records as written, with their paths. *)
Definition writes (log : list step) : list (string * gmap string value) :=
  flat_map (fun s => match s with
                     | StepWrite path versions => [(path, versions)]
                     | _ => []
                     end) log.

(** The example host: everything is installed already, the submodules
    are checked out and the build script succeeds. *)
Definition example_host : host :=
  {| world := example_env;
     project_base := "/ws";
     python := "/usr/bin/python3";
     command := fun _ => CommandSucceeds;
     version_file_state :=
       FileContent (Ok (PDict [("versions", PDict [("maafw", PStr "v1.0.0")])]));
     write_outcome_of := WriteSucceeds |}.

(** The example host of a first run: nothing installed, no version
    file, the network up. *)
Definition example_fresh_host : host :=
  {| world := example_fresh_env;
     project_base := "/ws";
     python := "python3";
     command := fun _ => CommandSucceeds;
     version_file_state := FileMissing;
     write_outcome_of := WriteSucceeds |}.

(** No two neighbours of a list are equal. *)
Fixpoint no_repeat (lines : list string) : bool :=
  match lines with
  | a :: (b :: _) as rest => negb (PyStr.eqb a b) && no_repeat rest
  | _ => true
  end.

(** All the bytes of the chunks, in order. *)
Definition all_bytes (chunks : list (string * Q)) : string :=
  fold_right (fun c data => fst c +:+ data) EmptyString chunks.

(** The chunks before the first empty one. *)
Fixpoint before_empty (chunks : list (string * Q)) : list (string * Q) :=
  match chunks with
  | [] => []
  | c :: rest => if PyStr.is_empty (fst c) then [] else c :: before_empty rest
  end.



(** * Proofs *)

(** ** The model on the documented examples *)

Example parse_prefixed_prerelease :
  parse_semver (PStr "v1.2.3-beta.1") = Ok [1; 2; 3].
Proof. reflexivity. Qed.

Example parse_two_components : parse_semver (PStr "1.2") = Ok [1; 2].
Proof. reflexivity. Qed.

Example parse_empty : parse_semver (PStr "") = Ok [].
Proof. reflexivity. Qed.

Example parse_letters : parse_semver (PStr "abc") = Ok [0].
Proof. reflexivity. Qed.

Example parse_blank : parse_semver (PStr "  ") = Ok [0].
Proof. reflexivity. Qed.

(** A superscript two (U+00B2) passes [isdigit] and is refused by [int]. *)
Example parse_superscript :
  parse_semver (PStr (String (ascii_of_N 49) (String (ascii_of_N 178) "")))
  = Raise ValueError.
Proof. reflexivity. Qed.

Example compare_superscript :
  compare_semver
    (PStr (String (ascii_of_N 49) (String (ascii_of_N 178) ""))) (PStr "1")
  = Raise ValueError.
Proof. reflexivity. Qed.

Example compare_shorter_equal :
  compare_semver (PStr "1.2.0") (PStr "1.2") = Ok 0.
Proof. reflexivity. Qed.

Example keywords_in_either_order :
  all_keywords_in ["a"; "b"] (PyStr.lower "xBxAx") = true
  /\ all_keywords_in ["a"; "b"] (PyStr.lower "xAx") = false.
Proof. split; reflexivity. Qed.

Example file_size_scaling :
  to_file_size (Some 1280) = Ok "1.2 KB"
  /\ to_file_size (Some 123456789) = Ok "117.7 MB"
  /\ to_file_size (Some (-1)) = Ok "--".
Proof. repeat split. Qed.

(** From 2^53 on [float(size)] rounds, and from 2^1024 - 2^970 on it
    raises. *)
Example file_size_rounding :
  to_file_size (Some 9007474132647937) = Ok "8192.2 TB"
  /\ to_file_size (Some (2 ^ 1024 - 2 ^ 970)) = Raise OverflowError.
Proof. split; vm_compute; reflexivity. Qed.

(** More than 4300 digits are too many for [int()]. *)
Example parse_digit_limit :
  parse_semver (PStr (Pos.iter (String "1") "" 4300)) <> Raise ValueError
  /\ parse_semver (PStr (Pos.iter (String "1") "" 4301)) = Raise ValueError.
Proof. split; vm_compute; [discriminate | reflexivity]. Qed.

Example joinpath_absolute :
  joinpath "/tmp/setup" "a.zip" = "/tmp/setup/a.zip"
  /\ joinpath "/tmp/setup" "/etc/a.zip" = "/etc/a.zip"
  /\ joinpath "/tmp/setup" "./a//b/" = "/tmp/setup/a/b".
Proof. repeat split. Qed.

Example eta_rendering :
  seconds_to_hms (Some (7451 # 2)) = "01:02:05".
Proof. reflexivity. Qed.

Example end_to_end_up_to_date :
  install_maafw example_env 0 "/ws/install" false true (PStr "v2.1.0")
  = Some (Ok (true, PStr "v2.1.0", false),
          [EvExists "/ws/install/maafw/MaaFramework.dll";
           EvReleases MFW_REPO]).
Proof. reflexivity. Qed.
(** ** Version comparison *)

Section VersionComparator.

Lemma component_pad_zeros xs n i :
  component (pad_zeros xs n) i = component xs i.
Proof.
  unfold component, pad_zeros.
  destruct (Nat.lt_ge_cases i (length xs)) as [Hlt | Hge].
  - now rewrite app_nth1.
  - rewrite app_nth2 by exact Hge.
    rewrite (nth_overflow xs) by exact Hge.
    generalize (i - length xs)%nat as k.
    induction (n - length xs)%nat as [| m IH]; intros [| k]; simpl; auto.
Qed.

Lemma length_pad_zeros xs n :
  (length xs <= n)%nat -> length (pad_zeros xs n) = n.
Proof.
  intros H. unfold pad_zeros.
  rewrite length_app, repeat_length. lia.
Qed.

Lemma compare_pairs_first_difference xs :
  forall ys, length xs = length ys ->
    first_difference xs ys (compare_pairs (combine xs ys)).
Proof.
  induction xs as [| x xs IH]; intros [| y ys] Hlen; simpl in Hlen;
    try discriminate.
  - simpl. now apply fd_equal.
  - simpl.
    destruct (Z.gtb_spec x y) as [Hgt | Hle].
    + apply (fd_greater _ _ 0%nat); [lia | unfold component; simpl; lia].
    + destruct (Z.ltb_spec x y) as [Hlt | Hge].
      * apply (fd_less _ _ 0%nat); [lia | unfold component; simpl; lia].
      * assert (x = y) by lia. subst y.
        specialize (IH ys ltac:(lia)).
        inversion IH as [Heq Hc | i Hbefore Hi Hc | i Hbefore Hi Hc].
        -- apply fd_equal. intros [| i]; [reflexivity | apply Heq].
        -- apply (fd_greater _ _ (S i)); [| exact Hi].
           intros [| j] Hj; [reflexivity | apply Hbefore; lia].
        -- apply (fd_less _ _ (S i)); [| exact Hi].
           intros [| j] Hj; [reflexivity | apply Hbefore; lia].
Qed.

Lemma first_difference_ext l l' r r' c :
  (forall i, component l i = component l' i) ->
  (forall i, component r i = component r' i) ->
  first_difference l r c -> first_difference l' r' c.
Proof.
  intros Hl Hr H.
  destruct H as [Heq | i Hbefore Hi | i Hbefore Hi].
  - apply fd_equal. intros i. now rewrite <- Hl, <- Hr.
  - apply (fd_greater _ _ i).
    + intros j Hj. rewrite <- Hl, <- Hr. now apply Hbefore.
    + now rewrite <- Hl, <- Hr.
  - apply (fd_less _ _ i).
    + intros j Hj. rewrite <- Hl, <- Hr. now apply Hbefore.
    + now rewrite <- Hl, <- Hr.
Qed.

Lemma compare_versions_first_difference l r :
  first_difference l r (compare_versions l r).
Proof.
  unfold compare_versions.
  set (n := Nat.max (length l) (length r)).
  apply (first_difference_ext (pad_zeros l n) l (pad_zeros r n) r).
  - intros i. apply component_pad_zeros.
  - intros i. apply component_pad_zeros.
  - apply compare_pairs_first_difference.
    rewrite !length_pad_zeros; lia.
Qed.

Lemma first_difference_functional l r c c' :
  first_difference l r c -> first_difference l r c' -> c = c'.
Proof.
  intros H H'.
  destruct H as [Heq | i Hbefore Hi | i Hbefore Hi];
    destruct H' as [Heq' | i' Hbefore' Hi' | i' Hbefore' Hi'];
    try reflexivity; exfalso;
    try (specialize (Heq i'); lia);
    try (specialize (Heq' i); lia);
    destruct (Nat.lt_trichotomy i i') as [Hlt | [He | Hgt]];
    try (specialize (Hbefore' i Hlt); lia);
    try (specialize (Hbefore i' Hgt); lia);
    subst; lia.
Qed.

Lemma first_difference_sym l r c :
  first_difference l r c -> first_difference r l (- c).
Proof.
  intros [Heq | i Hbefore Hi | i Hbefore Hi]; simpl.
  - apply fd_equal. intros i. symmetry. apply Heq.
  - apply (fd_less _ _ i); [| lia].
    intros j Hj. symmetry. now apply Hbefore.
  - apply (fd_greater _ _ i); [| lia].
    intros j Hj. symmetry. now apply Hbefore.
Qed.

Lemma first_difference_trans l r t x y z :
  first_difference l r x -> first_difference r t y ->
  first_difference l t z -> x >= 0 -> y >= 0 -> z >= 0.
Proof.
  intros Hx Hy Hz Hx0 Hy0.
  destruct Hz as [Hz | k Hzb Hzk | k Hzb Hzk]; try lia.
  exfalso.
  destruct Hx as [Hx | i Hxb Hxi | i Hxb Hxi]; try lia;
    destruct Hy as [Hy | j Hyb Hyj | j Hyb Hyj]; try lia.
  - specialize (Hx k). specialize (Hy k). lia.
  - pose proof (Hx j) as Hxj. pose proof (Hx k) as Hxk.
    destruct (Nat.lt_trichotomy j k) as [Hlt | [He | Hgt]].
    + specialize (Hzb j Hlt). lia.
    + subst. lia.
    + specialize (Hyb k Hgt). lia.
  - pose proof (Hy i) as Hyi. pose proof (Hy k) as Hyk.
    destruct (Nat.lt_trichotomy i k) as [Hlt | [He | Hgt]].
    + specialize (Hzb i Hlt). lia.
    + subst. lia.
    + specialize (Hxb k Hgt). lia.
  - destruct (Nat.lt_trichotomy i k) as [Hik | [Hik | Hik]];
      destruct (Nat.lt_trichotomy j k) as [Hjk | [Hjk | Hjk]];
      destruct (Nat.lt_trichotomy i j) as [Hij | [Hij | Hij]];
      subst; try lia;
      try (pose proof (Hzb i ltac:(lia)));
      try (pose proof (Hzb j ltac:(lia)));
      try (pose proof (Hxb j ltac:(lia)));
      try (pose proof (Hxb k ltac:(lia)));
      try (pose proof (Hyb i ltac:(lia)));
      try (pose proof (Hyb k ltac:(lia)));
      lia.
Qed.

(** *** Parsing succeeds on plain text *)

Lemma all_chars_lstrip p s :
  all_chars p s = true -> all_chars p (PyStr.lstrip s) = true.
Proof.
  induction s as [| c r IH]; simpl; [easy |].
  intros H. apply andb_true_iff in H as [Hc Hr].
  destruct (PyStr.isspace c); [now apply IH |].
  simpl. now rewrite Hc, Hr.
Qed.

Lemma all_chars_rstrip p s :
  all_chars p s = true -> all_chars p (PyStr.rstrip s) = true.
Proof.
  induction s as [| c r IH]; simpl; [easy |].
  intros H. apply andb_true_iff in H as [Hc Hr].
  destruct (PyStr.isspace c && PyStr.is_empty (PyStr.rstrip r)); [easy |].
  simpl. now rewrite Hc, IH.
Qed.

Lemma all_chars_strip p s :
  all_chars p s = true -> all_chars p (PyStr.strip s) = true.
Proof.
  intros H. unfold PyStr.strip.
  now apply all_chars_rstrip, all_chars_lstrip.
Qed.

Lemma all_chars_drop1 p s :
  all_chars p s = true -> all_chars p (PyStr.drop1 s) = true.
Proof.
  destruct s as [| c r]; simpl; [easy |].
  intros H. now apply andb_true_iff in H as [_ Hr].
Qed.

Lemma all_chars_split_first p sep s :
  all_chars p s = true -> all_chars p (PyStr.split_first sep s) = true.
Proof.
  induction s as [| c r IH]; simpl; [easy |].
  intros H. apply andb_true_iff in H as [Hc Hr].
  destruct (Ascii.eqb c sep); [easy |].
  simpl. now rewrite Hc, IH.
Qed.

Lemma all_chars_split p sep s :
  all_chars p s = true ->
  Forall (fun part => all_chars p part = true) (PyStr.split sep s).
Proof.
  induction s as [| c r IH]; simpl.
  - intros _. now repeat constructor.
  - intros H. apply andb_true_iff in H as [Hc Hr].
    specialize (IH Hr).
    destruct (Ascii.eqb c sep); [now constructor |].
    destruct (PyStr.split sep r) as [| h t].
    + repeat constructor. simpl. now rewrite Hc.
    + inversion IH as [| ? ? Hh Ht]; subst.
      constructor; [| exact Ht]. simpl. now rewrite Hc, Hh.
Qed.

Lemma leading_digits_decimal part :
  all_chars plain part = true ->
  all_chars PyStr.isdecimal (leading_digits part) = true.
Proof.
  induction part as [| c r IH]; simpl; [easy |].
  intros H. apply andb_true_iff in H as [Hc Hr].
  unfold plain in Hc.
  destruct (PyStr.isdigit c); [| easy].
  simpl in Hc. simpl. now rewrite Hc, IH.
Qed.

Lemma int_from_decimal s :
  all_chars PyStr.isdecimal s = true ->
  forall acc, exists n, PyStr.int_from acc s = Some n.
Proof.
  induction s as [| c r IH]; simpl; intros H acc; [now exists acc |].
  apply andb_true_iff in H as [Hc Hr].
  rewrite Hc. now apply IH.
Qed.

(** *** Runs of digits that [int()] accepts *)

Lemma digit_run_nonneg s : 0 <= digit_run s.
Proof.
  induction s as [| c r IH]; simpl; [lia |].
  destruct (PyStr.isdigit c); lia.
Qed.

Lemma digit_run_cons c x y :
  digit_run x <= digit_run y ->
  digit_run (String c x) <= digit_run (String c y).
Proof. simpl. destruct (PyStr.isdigit c); lia. Qed.

Lemma convertible_cons c x y :
  digit_run x <= digit_run y ->
  convertible (String c y) = true -> convertible x = true ->
  convertible (String c x) = true.
Proof.
  intros Hrun Hy Hx.
  change (convertible (String c y))
    with ((digit_run (String c y) <=? PyStr.int_max_str_digits)
          && convertible y) in Hy.
  change (convertible (String c x))
    with ((digit_run (String c x) <=? PyStr.int_max_str_digits)
          && convertible x).
  apply andb_true_iff in Hy as [Hy _]. apply Z.leb_le in Hy.
  rewrite Hx, andb_true_r. apply Z.leb_le.
  pose proof (digit_run_cons c x y Hrun). lia.
Qed.

Lemma convertible_tail c r :
  convertible (String c r) = true -> convertible r = true.
Proof.
  change (convertible (String c r))
    with ((digit_run (String c r) <=? PyStr.int_max_str_digits)
          && convertible r).
  intros H. now apply andb_true_iff in H as [_ Hr].
Qed.

Lemma convertible_head s :
  convertible s = true -> digit_run s <= PyStr.int_max_str_digits.
Proof.
  destruct s as [| c r].
  { intros _. simpl. unfold PyStr.int_max_str_digits. lia. }
  change (convertible (String c r))
    with ((digit_run (String c r) <=? PyStr.int_max_str_digits)
          && convertible r).
  intros H. apply andb_true_iff in H as [H _]. now apply Z.leb_le.
Qed.

Lemma convertible_lstrip s :
  convertible s = true -> convertible (PyStr.lstrip s) = true.
Proof.
  induction s as [| c r IH]; [easy |].
  intros H. simpl PyStr.lstrip.
  destruct (PyStr.isspace c); [| exact H].
  apply IH. now apply convertible_tail in H.
Qed.

Lemma digit_run_rstrip s : digit_run (PyStr.rstrip s) <= digit_run s.
Proof.
  induction s as [| c r IH]; [simpl; lia |].
  simpl PyStr.rstrip.
  destruct (PyStr.isspace c && PyStr.is_empty (PyStr.rstrip r)).
  - apply (digit_run_nonneg (String c r)).
  - now apply digit_run_cons.
Qed.

Lemma convertible_rstrip s :
  convertible s = true -> convertible (PyStr.rstrip s) = true.
Proof.
  induction s as [| c r IH]; [easy |].
  intros H. simpl PyStr.rstrip.
  destruct (PyStr.isspace c && PyStr.is_empty (PyStr.rstrip r)); [easy |].
  apply (convertible_cons c _ r); [apply digit_run_rstrip | exact H |].
  apply IH. now apply convertible_tail in H.
Qed.

Lemma convertible_strip s :
  convertible s = true -> convertible (PyStr.strip s) = true.
Proof.
  intros H. unfold PyStr.strip.
  now apply convertible_rstrip, convertible_lstrip.
Qed.

Lemma convertible_drop1 s :
  convertible s = true -> convertible (PyStr.drop1 s) = true.
Proof. destruct s as [| c r]; [easy | apply convertible_tail]. Qed.

Lemma digit_run_split_first sep s :
  digit_run (PyStr.split_first sep s) <= digit_run s.
Proof.
  induction s as [| c r IH]; [simpl; lia |].
  simpl PyStr.split_first.
  destruct (Ascii.eqb c sep).
  - apply (digit_run_nonneg (String c r)).
  - now apply digit_run_cons.
Qed.

Lemma convertible_split_first sep s :
  convertible s = true -> convertible (PyStr.split_first sep s) = true.
Proof.
  induction s as [| c r IH]; [easy |].
  intros H. simpl PyStr.split_first.
  destruct (Ascii.eqb c sep); [easy |].
  apply (convertible_cons c _ r); [apply digit_run_split_first | exact H |].
  apply IH. now apply convertible_tail in H.
Qed.

Lemma digit_run_split_head sep s :
  digit_run (hd "" (PyStr.split sep s)) <= digit_run s.
Proof.
  induction s as [| c r IH]; [simpl; lia |].
  simpl PyStr.split.
  destruct (Ascii.eqb c sep).
  - apply (digit_run_nonneg (String c r)).
  - destruct (PyStr.split sep r) as [| h t]; now apply digit_run_cons.
Qed.

Lemma convertible_split sep s :
  convertible s = true ->
  Forall (fun part => convertible part = true) (PyStr.split sep s).
Proof.
  induction s as [| c r IH]; [now repeat constructor |].
  intros H. pose proof (convertible_tail _ _ H) as Hr.
  specialize (IH Hr). pose proof (digit_run_split_head sep r) as Hrun.
  simpl PyStr.split.
  destruct (Ascii.eqb c sep); [now constructor |].
  destruct (PyStr.split sep r) as [| h t].
  - repeat constructor. now apply (convertible_cons c _ r).
  - inversion IH as [| ? ? Hh Ht]; subst.
    constructor; [| exact Ht]. now apply (convertible_cons c _ r).
Qed.

Lemma digit_count_leading part :
  PyStr.digit_count (leading_digits part) <= digit_run part.
Proof.
  induction part as [| c r IH]; simpl; [lia |].
  destruct (PyStr.isdigit c); simpl; [| lia].
  destruct (PyStr.isdecimal c); lia.
Qed.

(** Within the limit [int] is the decimal value. *)
Lemma int_of_within_limit s :
  PyStr.digit_count s <= PyStr.int_max_str_digits ->
  PyStr.int_of s = PyStr.int_from 0 s.
Proof.
  intros H. unfold PyStr.int_of.
  destruct (Z.ltb_spec PyStr.int_max_str_digits (PyStr.digit_count s));
    [lia | reflexivity].
Qed.

Lemma parse_parts_plain parts :
  Forall (fun part => all_chars plain part = true) parts ->
  Forall (fun part => convertible part = true) parts ->
  exists numbers, parse_parts parts = Ok numbers.
Proof.
  induction 1 as [| part rest Hpart _ IH]; intros Hconv; simpl.
  - now exists [].
  - inversion Hconv as [| ? ? Hrun Hrest]; subst.
    destruct (IH Hrest) as [numbers Hnumbers].
    destruct (int_from_decimal _ (leading_digits_decimal _ Hpart) 0)
      as [n Hn].
    rewrite int_of_within_limit, Hn, Hnumbers.
    + destruct (PyStr.is_empty (leading_digits part)); simpl; eauto.
    + pose proof (digit_count_leading part).
      pose proof (convertible_head _ Hrun). lia.
Qed.

Lemma parse_semver_plain s :
  all_chars plain s = true -> convertible s = true ->
  exists numbers, parse_semver (PStr s) = Ok numbers.
Proof.
  intros H Hconv. unfold parse_semver.
  destruct (negb (truthy (PStr s))); [now exists [] |].
  apply parse_parts_plain; [apply all_chars_split | apply convertible_split];
    repeat match goal with
           | |- context [if ?b then _ else _] => destruct b
           end;
    repeat first [ apply all_chars_split_first | apply all_chars_drop1
                 | apply all_chars_strip | apply convertible_split_first
                 | apply convertible_drop1 | apply convertible_strip ];
    assumption.
Qed.

Lemma dotted_from_plain s :
  forall expect, dotted_from expect s = true -> all_chars plain s = true.
Proof.
  induction s as [| c r IH]; simpl; intros expect H; [easy |].
  destruct (PyStr.isdecimal c) eqn:Hdec.
  - rewrite (IH false H). unfold plain. rewrite Hdec.
    now destruct (PyStr.isdigit c).
  - destruct (Ascii.eqb_spec c ".") as [-> | _]; [| discriminate].
    apply andb_true_iff in H as [_ Hr].
    now rewrite (IH true Hr).
Qed.

Lemma dotted_numeric_truthy s :
  dotted_numeric s = true -> truthy (PStr s) = true.
Proof. now destruct s. Qed.

Lemma dotted_numeric_parses s :
  dotted_numeric s = true -> convertible s = true ->
  exists numbers, parse_semver (PStr s) = Ok numbers.
Proof.
  intros H Hconv. eapply parse_semver_plain; [| exact Hconv].
  eapply dotted_from_plain, H.
Qed.

(** *** The comparison of two non-empty strings *)

Lemma compare_semver_parsed a b l r :
  truthy a = true -> truthy b = true ->
  parse_semver a = Ok l -> parse_semver b = Ok r ->
  compare_semver a b = Ok (compare_versions l r).
Proof.
  intros Ha Hb Hl Hr. unfold compare_semver, py_or.
  rewrite Ha, Hb. simpl. now rewrite Hl, Hr.
Qed.

Lemma compare_semver_falsy_left a b :
  truthy a = false ->
  compare_semver a b = if truthy b then Ok (-1) else Ok 0.
Proof.
  intros Ha. unfold compare_semver. rewrite Ha.
  now destruct (truthy b).
Qed.

Lemma compare_semver_falsy_right a b :
  truthy b = false ->
  compare_semver a b = if truthy a then Ok 1 else Ok 0.
Proof.
  intros Hb. unfold compare_semver. rewrite Hb.
  now destruct (truthy a).
Qed.

End VersionComparator.


(** ** Release resolution *)

Section ReleaseResolver.

Variable prerelease : bool.
Variable keywords : list string.

(** The filter expression, with Python's precedence of [and] over [or],
    is the exclusion condition. *)
Lemma skip_condition_excluded tag :
  truthy (skip_condition prerelease tag) = excluded prerelease tag.
Proof.
  unfold skip_condition, excluded, marked, py_or, py_and.
  destruct prerelease; simpl.
  - now destruct (truthy (dict_get tag "draft" (PBool false))).
  - destruct (truthy (dict_get tag "prerelease" (PBool false))) eqn:Hp;
      simpl; [exact Hp | reflexivity].
Qed.

Lemma release_of_found tag a n url :
  dict_lookup a "name" = Some (PStr n) ->
  dict_lookup a "browser_download_url" = Some url ->
  release_of tag (PDict a)
  = (url, PStr n,
     py_or (dict_get tag "tag_name" PNone) (dict_get tag "name" PNone)).
Proof.
  intros Hn Hu. unfold release_of, dict_get. now rewrite Hn, Hu.
Qed.

(** Whatever the assets are, a [return] of the inner loop is a matching
    asset of the list. *)
Lemma scan_assets_sound tag assets found :
  scan_assets keywords tag assets = Ok (Some found) ->
  exists asset,
    In asset assets /\ asset_matches keywords asset = true
    /\ found = release_of tag asset.
Proof.
  induction assets as [| asset rest IH]; simpl; [discriminate |].
  destruct asset as [| | | | | | a]; try discriminate.
  destruct (dict_lookup a "name") as [[| | | | n | |] |] eqn:Hn;
    try discriminate.
  destruct (all_keywords_in keywords (PyStr.lower n)) eqn:Hm.
  - destruct (dict_lookup a "browser_download_url") as [url |] eqn:Hu;
      [| discriminate].
    intros [= <-]. exists (PDict a). split; [now left |].
    split; [simpl; now rewrite Hn |].
    symmetry. now apply release_of_found.
  - intros H. destruct (IH H) as (asset & Hin & Hmatch & Hfound).
    exists asset. split; [now right | now split].
Qed.

(** On well-formed assets the inner loop returns the first match. *)
Lemma scan_assets_find tag assets :
  forallb well_formed_asset assets = true ->
  scan_assets keywords tag assets
  = Ok (option_map (release_of tag) (find (asset_matches keywords) assets)).
Proof.
  induction assets as [| asset rest IH]; simpl; [reflexivity |].
  intros H. apply andb_true_iff in H as [Hwf Hrest].
  destruct asset as [| | | | | | a]; try discriminate.
  simpl in Hwf.
  destruct (dict_lookup a "name") as [[| | | | n | |] |] eqn:Hn;
    try discriminate.
  destruct (dict_lookup a "browser_download_url") as [url |] eqn:Hu;
    [| discriminate].
  assert (Hm : asset_matches keywords (PDict a)
               = all_keywords_in keywords (PyStr.lower n))
    by (simpl; now rewrite Hn).
  rewrite Hm.
  destruct (all_keywords_in keywords (PyStr.lower n)); [| now apply IH].
  simpl. f_equal. f_equal. symmetry. now apply release_of_found.
Qed.

Lemma find_app {A} (f : A -> bool) (xs ys : list A) :
  find f (xs ++ ys)
  = match find f xs with Some x => Some x | None => find f ys end.
Proof.
  induction xs as [| x xs IH]; simpl; [reflexivity |].
  now destruct (f x).
Qed.

Lemma find_tagged (tag : list (string * value)) assets :
  find (fun c => asset_matches keywords (snd c)) (map (pair tag) assets)
  = option_map (pair tag) (find (asset_matches keywords) assets).
Proof.
  induction assets as [| a rest IH]; simpl; [reflexivity |].
  now destruct (asset_matches keywords a).
Qed.

(** [first_match] unfolded over the head tag. *)
Lemma first_match_cons tag rest :
  first_match prerelease keywords (PDict tag :: rest)
  = if excluded prerelease tag then first_match prerelease keywords rest
    else match find (asset_matches keywords) (assets_of tag) with
         | Some a => Some (tag, a)
         | None => first_match prerelease keywords rest
         end.
Proof.
  unfold first_match, candidates. simpl.
  destruct (excluded prerelease tag); [reflexivity |].
  rewrite find_app, find_tagged.
  now destruct (find (asset_matches keywords) (assets_of tag)).
Qed.


(** Well-formed tags without a match are passed over. *)
Lemma scan_tags_app pre rest :
  forallb well_formed_tag pre = true ->
  first_match prerelease keywords pre = None ->
  scan_tags prerelease keywords (pre ++ rest)
  = scan_tags prerelease keywords rest.
Proof.
  induction pre as [| tag pre IH]; simpl; [reflexivity |].
  intros H Hnone. apply andb_true_iff in H as [Hwf Hpre].
  destruct tag as [| | | | | | t]; try discriminate.
  rewrite first_match_cons in Hnone.
  rewrite skip_condition_excluded.
  destruct (excluded prerelease t); [now apply IH |].
  unfold assets_of in Hnone. simpl in Hwf.
  destruct (dict_get t "assets" (PList [])) as [| | | | | assets |];
    try discriminate.
  rewrite (scan_assets_find _ _ Hwf).
  destruct (find (asset_matches keywords) assets); [discriminate |].
  simpl. now apply IH.
Qed.

(** Whatever the feed is, a result of the outer loop is a matching asset
    of an eligible tag. *)
Lemma scan_tags_sound tags found :
  scan_tags prerelease keywords tags = Ok found ->
  exists tag asset,
    In (tag, asset) (candidates prerelease tags)
    /\ asset_matches keywords asset = true
    /\ found = release_of tag asset.
Proof.
  induction tags as [| tag rest IH]; simpl; [discriminate |].
  destruct tag as [| | | | | | t]; try discriminate.
  rewrite skip_condition_excluded.
  unfold candidates. simpl.
  destruct (excluded prerelease t) eqn:Hex.
  - exact IH.
  - unfold assets_of.
    destruct (dict_get t "assets" (PList [])) as [| | | | | assets |];
      try discriminate.
    destruct (scan_assets keywords t assets) as [[r |] | e] eqn:Hscan;
      simpl; try discriminate.
    + intros [= <-].
      destruct (scan_assets_sound _ _ _ Hscan) as (asset & Hin & Hm & Hf).
      exists t, asset. split; [| now split].
      apply in_or_app. left. now apply in_map.
    + intros H. destruct (IH H) as (tag & asset & Hin & Hm & Hf).
      exists tag, asset. split; [| now split].
      apply in_or_app. now right.
Qed.

Lemma resolve_release_sound response found :
  resolve_release response keywords prerelease = Ok found ->
  exists tag asset,
    In (tag, asset) (candidates prerelease (feed_of response))
    /\ asset_matches keywords asset = true
    /\ found = release_of tag asset.
Proof.
  unfold resolve_release.
  destruct response as [[| | | | | tags |] | e]; simpl; try discriminate.
  destruct tags as [| tag rest]; [discriminate |].
  apply scan_tags_sound.
Qed.



Lemma existsb_false_not_in {A} (f : A -> bool) xs x :
  existsb f xs = false -> In x xs -> f x = false.
Proof.
  intros H Hin. destruct (f x) eqn:Hf; [| reflexivity].
  assert (existsb f xs = true) by (apply existsb_exists; eauto).
  congruence.
Qed.

End ReleaseResolver.


(** ** Installation *)

Section LockedReplace.

Variable e : env.
Variable target : string.
Variable local_version : value.

Lemma removal_events_retry_log n rest :
  removal_events (retry_log target n ++ rest)
  = retry_log target n ++ removal_events rest.
Proof.
  induction n as [| n IH]; simpl; [reflexivity |].
  now rewrite <- IH.
Qed.

(** Retried attempts only add their events in front of the rest of the
    loop. *)
Lemma removal_loop_retries n :
  forall first fuel,
    held_open e target first n = true ->
    removal_loop e target local_version (n + fuel) first
    = match removal_loop e target local_version fuel (first + n) with
      | Some (exit, log) => Some (exit, retry_log target n ++ log)
      | None => None
      end.
Proof.
  induction n as [| n IH]; intros first fuel Hheld.
  - simpl. rewrite Nat.add_0_r.
    now destruct (removal_loop e target local_version fuel first)
      as [[exit log] |].
  - simpl in Hheld. apply andb_true_iff in Hheld as [Hfirst Hrest].
    simpl.
    destruct (removal e target first); try discriminate.
    destruct (operator e first) as [text |]; try discriminate.
    apply negb_true_iff in Hfirst. unfold is_quit in Hfirst.
    rewrite Hfirst, (IH (S first) fuel Hrest).
    replace (S first + n)%nat with (first + S n)%nat by lia.
    now destruct (removal_loop e target local_version fuel (first + S n))
      as [[exit log] |].
Qed.

(** While the target is held open the loop does not end. *)
Lemma removal_loop_starved n :
  forall first fuel,
    held_open e target first n = true -> (fuel <= n)%nat ->
    removal_loop e target local_version fuel first = None.
Proof.
  induction n as [| n IH]; intros first [| fuel] Hheld Hfuel;
    try reflexivity; try lia.
  simpl in Hheld. apply andb_true_iff in Hheld as [Hfirst Hrest].
  simpl.
  destruct (removal e target first); try discriminate.
  destruct (operator e first) as [text |]; try discriminate.
  apply negb_true_iff in Hfirst. unfold is_quit in Hfirst.
  rewrite Hfirst, (IH (S first) fuel Hrest); [reflexivity | lia].
Qed.

(** The log of a loop that ends holds removal attempts and prompts only,
    and starts with an attempt. *)
Lemma removal_loop_events fuel :
  forall attempt exit log,
    removal_loop e target local_version fuel attempt = Some (exit, log) ->
    removal_events log = log /\ exists rest, log = EvRemove target :: rest.
Proof.
  induction fuel as [| fuel IH]; intros attempt exit log; simpl;
    [discriminate |].
  destruct (removal e target attempt).
  - intros [= <- <-]. eauto.
  - destruct (operator e attempt) as [text |].
    + destruct (PyStr.eqb _ _).
      * intros [= <- <-]. eauto.
      * destruct (removal_loop e target local_version fuel (S attempt))
          as [[exit' log'] |] eqn:Hloop; [| discriminate].
        intros [= <- <-]. destruct (IH _ _ _ Hloop) as [Hev _].
        split; [| eauto]. simpl. now rewrite Hev.
    + intros [= <- <-]. eauto.
  - intros [= <- <-]. eauto.
Qed.

(** The loop after [n] retried attempts, by the outcome of attempt [n]. *)
Lemma removal_loop_outcome n fuel :
  held_open e target 0 n = true -> (n < fuel)%nat ->
  removal_loop e target local_version fuel 0
  = match removal e target n with
    | Removed => Some (LoopBreak, retry_log target n ++ [EvRemove target])
    | RaisesOther =>
        Some (LoopReturn (false, local_version, false),
              retry_log target n ++ [EvRemove target])
    | RaisesPermissionError =>
        match operator e n with
        | EndOfInput =>
            Some (LoopRaise EOFError,
                  retry_log target n ++ [EvRemove target; EvPrompt])
        | Line text =>
            if is_quit text
            then Some (LoopReturn (false, local_version, false),
                       retry_log target n ++ [EvRemove target; EvPrompt])
            else removal_loop e target local_version fuel 0
        end
    end.
Proof.
  intros Hheld Hfuel.
  destruct (removal e target n) eqn:Hrem;
    [| destruct (operator e n) as [text |] eqn:Hop;
       [destruct (is_quit text) eqn:Hquit; [| reflexivity] |] |];
    replace fuel with (n + S (fuel - S n))%nat by lia;
    rewrite (removal_loop_retries n 0 _ Hheld); simpl;
    rewrite Hrem; try rewrite Hop; try reflexivity.
  unfold is_quit in Hquit. now rewrite Hquit.
Qed.

End LockedReplace.

Section InstallCall.

Variable e : env.
Variables repo product dest payload_dest : string.
Variables installed update_mode : bool.
Variable local_version : value.

(** Once the removal is reached, the install call is the removal loop
    followed by the unpacking. *)
Lemma fetch_and_install_reaches fuel :
  reaches_removal e repo product installed dest update_mode local_version
  = true ->
  exists url archive remote_version,
    fetch_and_install e repo product installed dest payload_dest update_mode
      local_version fuel
    = match removal_loop e dest local_version fuel 0 with
      | None => None
      | Some (exit, log) =>
          Some (match exit with
                | LoopBreak =>
                    Ok (unpack_and_install e archive payload_dest
                          local_version remote_version)
                | LoopReturn r => Ok r
                | LoopRaise x => Raise x
                end,
                EvReleases repo :: EvDownload url archive :: EvExists dest
                :: log ++ match exit with
                          | LoopBreak => [EvUnpack archive payload_dest]
                          | _ => []
                          end)
      end.
Proof.
  unfold reaches_removal, fetch_and_install.
  destruct (get_latest_release_url _ _ _ _) as [[url filename] remote_version].
  intros H.
  apply andb_true_iff in H as [H Hdest].
  apply andb_true_iff in H as [H Hdown].
  apply andb_true_iff in H as [H Hup].
  apply andb_true_iff in H as [Hurl Hname].
  destruct filename as [| | | | name | |]; try discriminate.
  exists url, (joinpath (tmp_dir e) name), remote_version.
  rewrite Hurl, Hname. simpl.
  destruct (up_to_date update_mode installed local_version remote_version)
    as [[|] | x]; try discriminate.
  rewrite Hdown, Hdest. simpl.
  now destruct (removal_loop e dest local_version fuel 0) as [[exit log] |].
Qed.

Lemma removal_events_app xs ys :
  removal_events (xs ++ ys) = removal_events xs ++ removal_events ys.
Proof. unfold removal_events. apply List.filter_app. Qed.

(** The contract of the retry loop, for the part of an install call that
    follows the existence check of the artifact. *)
Lemma fetch_and_install_retry n (before : list event) :
  removal_events before = [] ->
  reaches_removal e repo product installed dest update_mode local_version
  = true ->
  held_open e dest 0 n = true ->
  retry_contract e dest local_version n
    (fun fuel =>
       match fetch_and_install e repo product installed dest payload_dest update_mode
               local_version fuel with
       | Some (r, log) => Some (r, before ++ log)
       | None => None
       end).
Proof.
  intros Hbefore Hreach Hheld.
  assert (Hshape : forall fuel exit tail,
    removal_loop e dest local_version fuel 0 = Some (exit, tail) ->
    exists r log,
      match fetch_and_install e repo product installed dest payload_dest update_mode
              local_version fuel with
      | Some (r, log) => Some (r, before ++ log)
      | None => None
      end = Some (r, log)
      /\ removal_events log = tail
      /\ (forall ir, exit = LoopReturn ir -> r = Ok ir)
      /\ (exit = LoopBreak -> exists ir, r = Ok ir)).
  { intros fuel exit tail Hloop.
    destruct (removal_loop_events _ _ _ _ _ _ _ Hloop) as [Htail _].
    destruct (fetch_and_install_reaches fuel Hreach)
      as (url & archive & remote_version & ->).
    rewrite Hloop. eexists _, _. split; [reflexivity |].
    split.
    - rewrite removal_events_app, Hbefore. simpl.
      rewrite removal_events_app, Htail.
      destruct exit; simpl; now rewrite app_nil_r.
    - split.
      + now intros ir ->.
      + intros ->. eauto. }
  repeat split.
  - intros text Hrem Hop Hquit fuel Hfuel.
    pose proof (removal_loop_outcome e dest local_version n fuel Hheld Hfuel)
      as Hloop.
    rewrite Hrem, Hop, Hquit in Hloop.
    destruct (Hshape _ _ _ Hloop) as (r & log & Hrun & Hlog & Hret & _).
    exists log. rewrite Hrun, (Hret _ eq_refl). now split.
  - intros Hrem fuel Hfuel.
    pose proof (removal_loop_outcome e dest local_version n fuel Hheld Hfuel)
      as Hloop.
    rewrite Hrem in Hloop.
    destruct (Hshape _ _ _ Hloop) as (r & log & Hrun & Hlog & Hret & _).
    exists log. rewrite Hrun, (Hret _ eq_refl). now split.
  - intros fuel Hfuel.
    destruct (fetch_and_install_reaches fuel Hreach)
      as (url & archive & remote_version & ->).
    now rewrite (removal_loop_starved e dest local_version n 0 fuel Hheld Hfuel).
  - intros fuel r log Hrun.
    destruct (removal_loop e dest local_version fuel 0) as [[exit tail] |]
      eqn:Hloop.
    + destruct (Hshape _ _ _ Hloop) as (r' & log' & Hrun' & Hlog & _).
      rewrite Hrun in Hrun'. injection Hrun' as <- <-.
      destruct (Nat.le_gt_cases fuel n) as [Hle | Hgt].
      { now rewrite (removal_loop_starved e dest local_version n 0 fuel Hheld Hle)
          in Hloop. }
      replace fuel with (n + (fuel - n))%nat in Hloop by lia.
      rewrite (removal_loop_retries e dest local_version n 0 _ Hheld) in Hloop.
      destruct (removal_loop e dest local_version (fuel - n) (0 + n))
        as [[exit' tail'] |] eqn:Hnext; [| discriminate].
      injection Hloop as <- <-.
      destruct (removal_loop_events _ _ _ _ _ _ _ Hnext) as [_ [rest ->]].
      now exists rest.
    + destruct (fetch_and_install_reaches fuel Hreach)
        as (url & archive & remote_version & Heq).
      rewrite Heq, Hloop in Hrun. discriminate.
  - intros Hrem fuel Hfuel.
    pose proof (removal_loop_outcome e dest local_version n fuel Hheld Hfuel)
      as Hloop.
    rewrite Hrem in Hloop.
    destruct (Hshape _ _ _ Hloop) as (r & log & Hrun & Hlog & _ & Hbr).
    destruct (Hbr eq_refl) as [ir ->]. now exists ir, log.
Qed.

End InstallCall.

(** The two installers are the common call after their existence check. *)
Lemma install_maafw_call e fuel install_root skip_if_exist update_mode
    local_version :
  let maafw_dest := joinpath install_root "maafw" in
  let artifact := joinpath maafw_dest (MFW_DIST_NAME (host_os e)) in
  install_maafw e fuel install_root skip_if_exist update_mode local_version
  = if skip_if_exist && path_exists e artifact
    then Some (Ok (true, local_version, false), [EvExists artifact])
    else match fetch_and_install e MFW_REPO "maa" (path_exists e artifact)
                 maafw_dest maafw_dest update_mode local_version fuel with
         | Some (r, log) => Some (r, [EvExists artifact] ++ log)
         | None => None
         end.
Proof.
  intros maafw_dest artifact. unfold install_maafw, fetch_and_install.
  fold maafw_dest. fold artifact.
  destruct (skip_if_exist && path_exists e artifact); [reflexivity |].
  destruct (get_latest_release_url _ _ _ _) as [[url filename] remote_version].
  destruct (negb (truthy url) || negb (truthy filename)); [reflexivity |].
  destruct (up_to_date _ _ _ _) as [[|] | x]; try reflexivity.
  destruct filename; try reflexivity.
  destruct (negb (download_file e url _)); [reflexivity |].
  destruct (path_exists e maafw_dest); [| reflexivity].
  now destruct (removal_loop e maafw_dest local_version fuel 0)
    as [[[| r | x] log] |]; simpl; rewrite ?app_nil_r.
Qed.

Lemma install_mxu_call e fuel install_root skip_if_exist update_mode
    local_version :
  let mxu_path := joinpath install_root (MXU_DIST_NAME (host_os e)) in
  install_mxu e fuel install_root skip_if_exist update_mode local_version
  = if skip_if_exist && path_exists e mxu_path
    then Some (Ok (true, local_version, false), [EvExists mxu_path])
    else match fetch_and_install e MXU_REPO "mxu" (path_exists e mxu_path)
                 mxu_path install_root update_mode local_version fuel with
         | Some (r, log) => Some (r, [EvExists mxu_path] ++ log)
         | None => None
         end.
Proof.
  intros mxu_path. unfold install_mxu, fetch_and_install.
  fold mxu_path.
  destruct (skip_if_exist && path_exists e mxu_path); [reflexivity |].
  destruct (get_latest_release_url _ _ _ _) as [[url filename] remote_version].
  destruct (negb (truthy url) || negb (truthy filename)); [reflexivity |].
  destruct (up_to_date _ _ _ _) as [[|] | x]; try reflexivity.
  destruct filename; try reflexivity.
  destruct (negb (download_file e url _)); [reflexivity |].
  destruct (path_exists e mxu_path); [| reflexivity].
  now destruct (removal_loop e mxu_path local_version fuel 0)
    as [[[| r | x] log] |]; simpl; rewrite ?app_nil_r.
Qed.

Lemma retry_contract_ext e dest local_version n install install' :
  (forall fuel, install' fuel = install fuel) ->
  retry_contract e dest local_version n install ->
  retry_contract e dest local_version n install'.
Proof.
  intros Hext (Hquit & Hother & Hstarved & Hretry & Hremoved).
  repeat split.
  - intros text Hrem Hop Hq fuel Hfuel. rewrite Hext. eauto.
  - intros Hrem fuel Hfuel. rewrite Hext. eauto.
  - intros fuel Hfuel. rewrite Hext. eauto.
  - intros fuel r log. rewrite Hext. eauto.
  - intros Hrem fuel Hfuel. rewrite Hext. eauto.
Qed.

(** ** Version ledger *)

Section LedgerProofs.

Variable repr : value -> string.

Lemma stringify_items_strings items :
  map_Forall (fun _ v => is_str v) (stringify_items repr items).
Proof.
  unfold stringify_items.
  assert (H : forall (m : gmap string value),
             map_Forall (fun _ v => is_str v) m ->
             map_Forall (fun _ v => is_str v)
               (fold_left
                  (fun m kv => <[fst kv := PStr (py_str repr (snd kv))]> m)
                  items m)).
  { induction items as [| [k v] rest IH]; intros m Hm; simpl; [exact Hm |].
    apply IH. apply map_Forall_insert_2; [| exact Hm].
    now eexists. }
  apply H, map_Forall_empty.
Qed.

Lemma read_versions_file_strings file versions :
  read_versions_file repr file = Ok versions ->
  map_Forall (fun _ v => is_str v) versions.
Proof.
  unfold read_versions_file.
  destruct file as [| | loaded]; [discriminate | |].
  { intros [= <-]. apply map_Forall_empty. }
  unfold load_versions.
  destruct loaded as [[| | | | | | d] | x]; simpl;
    try (intros [= <-]; apply map_Forall_empty).
  destruct (dict_get d "versions" (PDict []));
    try (intros [= <-]; apply map_Forall_empty).
  intros [= <-]. apply stringify_items_strings.
Qed.

(** Unless the existence check raises, a mapping is returned. *)
Lemma read_versions_file_returns file :
  file <> FileCheckRaises ->
  exists versions, read_versions_file repr file = Ok versions.
Proof.
  intros Hfile. unfold read_versions_file.
  destruct file as [| | loaded]; [contradiction | eauto |].
  destruct (load_versions repr loaded) as [[versions |] | x]; eauto.
Qed.

End LedgerProofs.

Lemma record_version_same (versions : gmap string value) component :
  record_version versions component (ledger_get versions component) = versions.
Proof.
  unfold record_version, ledger_get.
  destruct (versions !! component) as [v |] eqn:Hv; simpl; [| reflexivity].
  destruct (truthy v); [| reflexivity].
  now apply insert_id.
Qed.



(** C5, as stated, fails: a version whose only group has 4301 digits is
    a well-formed dotted numeric string, yet [int()] refuses the group, so
    [compare_semver] raises [ValueError] instead of returning 0 when the
    version is compared with itself. *)
Lemma compare_semver_order_counterexample :
  dotted_numeric long_version = true
  /\ compare_semver (PStr long_version) (PStr long_version)
     = Raise ValueError
  /\ compare_semver (PStr long_version) (PStr long_version) <> Ok 0.
Proof. repeat split; vm_compute; [reflexivity .. | discriminate]. Qed.

(** C5 (amended): on well-formed dotted numeric version strings none of
    whose groups has more than 4300 digits [compare_semver] returns a
    result and is antisymmetric ([compare(a,b) = -compare(b,a)]),
    reflexive ([compare(a,a) = 0]) and transitive (from
    [compare(a,b) >= 0] and [compare(b,c) >= 0] follows
    [compare(a,c) >= 0]). *)
Theorem compare_semver_order (a b c : string) :
  dotted_numeric a = true -> dotted_numeric b = true ->
  dotted_numeric c = true ->
  convertible a = true -> convertible b = true -> convertible c = true ->
  exists x y z,
    compare_semver (PStr a) (PStr b) = Ok x
    /\ compare_semver (PStr b) (PStr a) = Ok (- x)
    /\ compare_semver (PStr a) (PStr a) = Ok 0
    /\ compare_semver (PStr b) (PStr c) = Ok y
    /\ compare_semver (PStr a) (PStr c) = Ok z
    /\ (x >= 0 -> y >= 0 -> z >= 0).
Proof.
  intros Ha Hb Hc Hla Hlb Hlc.
  destruct (dotted_numeric_parses a Ha Hla) as [la Hpa].
  destruct (dotted_numeric_parses b Hb Hlb) as [lb Hpb].
  destruct (dotted_numeric_parses c Hc Hlc) as [lc Hpc].
  apply dotted_numeric_truthy in Ha, Hb, Hc.
  exists (compare_versions la lb), (compare_versions lb lc),
    (compare_versions la lc).
  rewrite (compare_semver_parsed _ _ la lb), (compare_semver_parsed _ _ lb la),
    (compare_semver_parsed _ _ la la), (compare_semver_parsed _ _ lb lc),
    (compare_semver_parsed _ _ la lc) by assumption.
  pose proof (compare_versions_first_difference la lb) as Hab.
  repeat split.
  - f_equal.
    eapply first_difference_functional;
      [apply compare_versions_first_difference |].
    now apply first_difference_sym.
  - f_equal.
    eapply first_difference_functional;
      [apply compare_versions_first_difference | now apply fd_equal].
  - eapply first_difference_trans; [exact Hab | |];
      apply compare_versions_first_difference.
Qed.

Lemma compare_semver_order_witness :
  dotted_numeric "1.10.0" = true /\ dotted_numeric "1.9.9" = true
  /\ dotted_numeric "1.9" = true
  /\ convertible "1.10.0" = true /\ convertible "1.9.9" = true
  /\ convertible "1.9" = true
  /\ exists x y z,
      compare_semver (PStr "1.10.0") (PStr "1.9.9") = Ok x
      /\ compare_semver (PStr "1.9.9") (PStr "1.10.0") = Ok (- x)
      /\ compare_semver (PStr "1.10.0") (PStr "1.10.0") = Ok 0
      /\ compare_semver (PStr "1.9.9") (PStr "1.9") = Ok y
      /\ compare_semver (PStr "1.10.0") (PStr "1.9") = Ok z
      /\ (x >= 0 -> y >= 0 -> z >= 0).
Proof.
  do 6 (split; [reflexivity |]).
  apply (compare_semver_order "1.10.0" "1.9.9" "1.9"); reflexivity.
Defined.

(** C10: [compare_semver] treats the empty string exactly like an absent
    value, on either side and against every other value; in particular
    [compare("", "") = 0], [compare("1.0.0", "") = 1] and
    [compare("", "1.0.0") = -1]. *)
Theorem compare_semver_empty_is_absent (v : value) :
  compare_semver (PStr "") v = compare_semver PNone v
  /\ compare_semver v (PStr "") = compare_semver v PNone
  /\ compare_semver (PStr "") (PStr "") = Ok 0
  /\ compare_semver (PStr "1.0.0") (PStr "") = Ok 1
  /\ compare_semver (PStr "") (PStr "1.0.0") = Ok (-1).
Proof.
  split; [now rewrite !compare_semver_falsy_left |].
  split; [now rewrite !compare_semver_falsy_right |].
  repeat split; vm_compute; reflexivity.
Qed.





(** C6: [get_latest_release_url] always returns.  When no eligible tag of
    the response has an asset matching all keywords it returns the
    not-found triple; it returns the same triple when the request or the
    parsing raised and when the feed is empty, and whenever the body of
    the [try] block raises; any other result is a matching asset of an
    eligible tag. *)
Theorem get_latest_release_url_not_found (response : result value)
    (repo : string) (keywords : list string) (prerelease : bool) (e : exn) :
  has_match prerelease keywords response = false ->
  get_latest_release_url (fun _ => response) repo keywords prerelease
  = not_found
  /\ get_latest_release_url (fun _ => Raise e) repo keywords prerelease
     = not_found
  /\ get_latest_release_url (fun _ => Ok (PList [])) repo keywords prerelease
     = not_found
  /\ (forall other,
        resolve_release other keywords prerelease = Raise e ->
        get_latest_release_url (fun _ => other) repo keywords prerelease
        = not_found)
  /\ (forall other,
        get_latest_release_url (fun _ => other) repo keywords prerelease
        = not_found
        \/ exists tag asset,
             In (tag, asset) (candidates prerelease (feed_of other))
             /\ asset_matches keywords asset = true
             /\ get_latest_release_url (fun _ => other) repo keywords prerelease
                = release_of tag asset).
Proof.
  intros Hnone.
  assert (Htotal : forall other,
    get_latest_release_url (fun _ => other) repo keywords prerelease
    = not_found
    \/ exists tag asset,
         In (tag, asset) (candidates prerelease (feed_of other))
         /\ asset_matches keywords asset = true
         /\ get_latest_release_url (fun _ => other) repo keywords prerelease
            = release_of tag asset).
  { intros other. unfold get_latest_release_url.
    destruct (resolve_release other keywords prerelease) as [found | x] eqn:Hres;
      [| now left].
    right. apply resolve_release_sound in Hres as (tag & asset & Hin & Hm & ->).
    now exists tag, asset. }
  split; [| split; [reflexivity | split; [reflexivity | split]]].
  - destruct (Htotal response) as [H | (tag & asset & Hin & Hm & _)];
      [exact H |].
    unfold has_match in Hnone.
    pose proof (existsb_false_not_in _ _ _ Hnone Hin) as Hno.
    simpl in Hno. congruence.
  - intros other Hraise. unfold get_latest_release_url. now rewrite Hraise.
  - exact Htotal.
Qed.

Lemma get_latest_release_url_not_found_witness :
  has_match false ["mxu"; "linux"; "aarch64"] (Ok (PList example_feed)) = false
  /\ get_latest_release_url (fun _ => Ok (PList example_feed)) MXU_REPO
       ["mxu"; "linux"; "aarch64"] false
     = not_found.
Proof.
  split; [reflexivity |].
  exact (proj1 (get_latest_release_url_not_found
                  (Ok (PList example_feed)) MXU_REPO
                  ["mxu"; "linux"; "aarch64"] false ValueError eq_refl)).
Defined.

(** C3: in [install_maafw] and in [install_mxu], once the removal of the
    existing installation is reached and the first [n] attempts hit a
    permission error, each followed by a prompt answered with something
    other than the cancel token, the call has not ended and attempt [n]
    is made (every such answer is followed by a retry), and: a permission
    error answered with 'q' (after trimming and lower-casing) ends the
    call with the failure result; any other exception ends the call with
    the failure result at once, without a prompt; a removal that succeeds
    lets the call continue. *)
Theorem locked_replace_retry (e : env) (install_root : string)
    (skip_if_exist update_mode : bool) (local_version : value) (n : nat) :
  let maafw_dest := joinpath install_root "maafw" in
  let maafw_installed :=
    path_exists e (joinpath maafw_dest (MFW_DIST_NAME (host_os e))) in
  let mxu_path := joinpath install_root (MXU_DIST_NAME (host_os e)) in
  let mxu_installed := path_exists e mxu_path in
  (skip_if_exist && maafw_installed = false ->
   reaches_removal e MFW_REPO "maa" maafw_installed maafw_dest update_mode
     local_version = true ->
   held_open e maafw_dest 0 n = true ->
   retry_contract e maafw_dest local_version n
     (fun fuel =>
        install_maafw e fuel install_root skip_if_exist update_mode
          local_version))
  /\ (skip_if_exist && mxu_installed = false ->
      reaches_removal e MXU_REPO "mxu" mxu_installed mxu_path update_mode
        local_version = true ->
      held_open e mxu_path 0 n = true ->
      retry_contract e mxu_path local_version n
        (fun fuel =>
           install_mxu e fuel install_root skip_if_exist update_mode
             local_version)).
Proof.
  intros maafw_dest maafw_installed mxu_path mxu_installed.
  split; intros Hskip Hreach Hheld.
  - pose proof (fetch_and_install_retry e MFW_REPO "maa" maafw_dest
                  maafw_dest maafw_installed update_mode local_version n
                  [EvExists (joinpath maafw_dest (MFW_DIST_NAME (host_os e)))]
                  eq_refl Hreach Hheld) as H.
    eapply retry_contract_ext; [| exact H].
    intros fuel. rewrite install_maafw_call.
    fold maafw_dest. fold maafw_installed. now rewrite Hskip.
  - pose proof (fetch_and_install_retry e MXU_REPO "mxu" mxu_path
                  install_root mxu_installed update_mode local_version n
                  [EvExists mxu_path] eq_refl Hreach Hheld) as H.
    eapply retry_contract_ext; [| exact H].
    intros fuel. rewrite install_mxu_call.
    fold mxu_path. fold mxu_installed. now rewrite Hskip.
Qed.

Lemma locked_replace_retry_witness :
  (exists log,
      install_maafw example_env 3 "/ws/install" false true (PStr "v1.0.0")
      = Some (Ok (false, PStr "v1.0.0", false), log)
      /\ removal_events log
         = [EvRemove "/ws/install/maafw"; EvPrompt;
            EvRemove "/ws/install/maafw"; EvPrompt])
  /\ (exists log,
         install_mxu example_env 3 "/ws/install" false true (PStr "v1.0.0")
         = Some (Ok (false, PStr "v1.0.0", false), log)
         /\ removal_events log
            = [EvRemove "/ws/install/mxu.exe"; EvPrompt;
               EvRemove "/ws/install/mxu.exe"; EvPrompt]).
Proof.
  pose proof (locked_replace_retry example_env "/ws/install" false true
                (PStr "v1.0.0") 1) as [Hmaafw Hmxu].
  split.
  - exact (proj1 (Hmaafw eq_refl eq_refl eq_refl) " Q " eq_refl eq_refl eq_refl
             3%nat (le_S 2 2 (le_n 2))).
  - exact (proj1 (Hmxu eq_refl eq_refl eq_refl) " Q " eq_refl eq_refl eq_refl
             3%nat (le_S 2 2 (le_n 2))).
Defined.

(** C7: a call of [install_maafw] (resp. [install_mxu]) with
    [skip_if_exist] true whose expected artifact exists returns, whatever
    the fuel, success with the local version unchanged and the downloaded
    flag false; its only effect is the existence check, so neither the
    release lookup nor the download is made; and recording the returned
    version in the ledger it was read from leaves the ledger unchanged. *)
Theorem install_skip_if_exist (e : env) (fuel : nat) (install_root : string)
    (update_mode : bool) (local_version : value)
    (versions : gmap string value) :
  let artifact :=
    joinpath (joinpath install_root "maafw") (MFW_DIST_NAME (host_os e)) in
  let mxu_path := joinpath install_root (MXU_DIST_NAME (host_os e)) in
  (path_exists e artifact = true ->
   install_maafw e fuel install_root true update_mode local_version
   = Some (Ok (true, local_version, false), [EvExists artifact])
   /\ existsb is_network_event [EvExists artifact] = false)
  /\ (path_exists e mxu_path = true ->
      install_mxu e fuel install_root true update_mode local_version
      = Some (Ok (true, local_version, false), [EvExists mxu_path])
      /\ existsb is_network_event [EvExists mxu_path] = false)
  /\ record_version versions "maafw" (ledger_get versions "maafw") = versions
  /\ record_version versions "mxu" (ledger_get versions "mxu") = versions.
Proof.
  intros artifact mxu_path.
  split; [| split; [| split; apply record_version_same]].
  - intros Hexists. rewrite install_maafw_call. fold artifact.
    now rewrite Hexists.
  - intros Hexists. rewrite install_mxu_call. fold mxu_path.
    now rewrite Hexists.
Qed.

Lemma install_skip_if_exist_witness :
  install_maafw example_env 0 "/ws/install" true false (PStr "v1.0.0")
  = Some (Ok (true, PStr "v1.0.0", false),
          [EvExists "/ws/install/maafw/MaaFramework.dll"])
  /\ install_mxu example_env 0 "/ws/install" true false PNone
     = Some (Ok (true, PNone, false), [EvExists "/ws/install/mxu.exe"]).
Proof.
  split.
  - exact (proj1 (proj1 (install_skip_if_exist example_env 0 "/ws/install"
                           false (PStr "v1.0.0") ∅) eq_refl)).
  - exact (proj1 (proj1 (proj2 (install_skip_if_exist example_env 0
                                  "/ws/install" false PNone ∅)) eq_refl)).
Defined.

(** C8, at the failing input and away from it: when the existence check
    of the path itself raises (it is made before the [try] block),
    [read_versions_file] raises too instead of returning the empty
    mapping.  Whenever the check answers, the function returns a mapping:
    the empty one when the file is missing, when opening or parsing it
    raises, when the document is not an object, and when its 'versions'
    entry is not a mapping; and every value of a mapping it returns is a
    string (its keys are strings by their type). *)
Theorem read_versions_file_safe (repr : value -> string) (file : version_file)
    (x : exn) (d : list (string * value)) :
  read_versions_file repr FileCheckRaises = Raise OSError
  /\ read_versions_file repr FileMissing = Ok ∅
  /\ read_versions_file repr (FileContent (Raise x)) = Ok ∅
  /\ (forall doc, (forall items, doc <> PDict items) ->
      read_versions_file repr (FileContent (Ok doc)) = Ok ∅)
  /\ ((forall items, dict_get d "versions" (PDict []) <> PDict items) ->
      read_versions_file repr (FileContent (Ok (PDict d))) = Ok ∅)
  /\ (file <> FileCheckRaises ->
      exists versions, read_versions_file repr file = Ok versions)
  /\ (forall versions,
        read_versions_file repr file = Ok versions ->
        map_Forall (fun _ v => exists s, v = PStr s) versions).
Proof.
  split; [reflexivity |]. split; [reflexivity |]. split; [reflexivity |].
  split; [| split; [| split]].
  - intros doc Hdoc. destruct doc; try reflexivity.
    now destruct (Hdoc items).
  - intros Hversions. unfold read_versions_file, load_versions. simpl.
    destruct (dict_get d "versions" (PDict [])); try reflexivity.
    now destruct (Hversions items).
  - apply read_versions_file_returns.
  - apply read_versions_file_strings.
Qed.

(** C9, at the failing input: for a response without a Content-Length
    header the total size is 0, which [to_file_size] renders as "0.0 B"
    and not as the placeholder "--" it keeps for an unknown size; the ETA
    is then unknown and does render as "--:--:--". *)
Theorem progress_unknown_total (size_received : Z)
    (percentage speed_text : string) (speed : Q) :
  size_total_of None = Ok 0
  /\ to_file_size (Some 0) = Ok "0.0 B"
  /\ to_file_size None = Ok "--"
  /\ eta_of 0 size_received speed = None
  /\ seconds_to_hms None = "--:--:--"
  /\ progress_str size_received 0 percentage speed_text
       (eta_of 0 size_received speed)
     = let* received := to_file_size (Some size_received) in
       Ok (received +:+ "/" +:+ "0.0 B" +:+ " ("
           +:+ percentage +:+ ") | " +:+ speed_text +:+ " | ETA "
           +:+ "--:--:--").
Proof. repeat split. Qed.

Example progress_first_chunk_without_content_length :
  progress_str 8192 0 "" "1.2 MB/s" (eta_of 0 8192 (1258291 # 1))
  = Ok "8.0 KB/0.0 B () | 1.2 MB/s | ETA --:--:--".
Proof. reflexivity. Qed.

(** * Further properties *)

(** ** Decimal text *)

Section DecimalText.

Lemma uint_value_pos d :
  forall p, uint_value (Z.pos p) d = Z.pos (Pos.of_uint_acc d p).
Proof.
  induction d as [| d IH | d IH | d IH | d IH | d IH | d IH | d IH | d IH
                  | d IH | d IH]; intros p; simpl; [reflexivity | ..];
    rewrite <- IH; f_equal; lia.
Qed.

Lemma uint_value_zero d : uint_value 0 d = Z.of_N (Pos.of_uint d).
Proof.
  induction d as [| d IH | d IH | d IH | d IH | d IH | d IH | d IH | d IH
                  | d IH | d IH]; simpl; [reflexivity | exact IH | ..];
    apply (uint_value_pos d).
Qed.

Lemma int_from_uint d :
  forall acc,
    PyStr.int_from acc (NilEmpty.string_of_uint d) = Some (uint_value acc d).
Proof.
  induction d as [| d IH | d IH | d IH | d IH | d IH | d IH | d IH | d IH
                  | d IH | d IH]; intros acc; simpl; [reflexivity | ..];
    rewrite IH; do 2 f_equal; unfold PyStr.digit_value; simpl; lia.
Qed.

Lemma decimal_uint n :
  decimal n = NilEmpty.string_of_uint (N.to_uint (Z.to_N n)).
Proof.
  unfold decimal, NilZero.string_of_uint.
  destruct (Z.to_N n) as [| p]; [reflexivity |].
  simpl. pose proof (DecimalPos.Unsigned.to_uint_nonnil p) as Hnil.
  now destruct (Pos.to_uint p).
Qed.

Lemma int_from_decimal_value n :
  0 <= n -> PyStr.int_from 0 (decimal n) = Some n.
Proof.
  intros Hn.
  rewrite decimal_uint, int_from_uint, uint_value_zero.
  change (Pos.of_uint (N.to_uint (Z.to_N n)))
    with (N.of_uint (N.to_uint (Z.to_N n))).
  rewrite DecimalN.Unsigned.of_to. f_equal. lia.
Qed.

Lemma digit_count_uint d :
  PyStr.digit_count (NilEmpty.string_of_uint d)
  = Z.of_nat (Decimal.nb_digits d).
Proof.
  induction d as [| d IH | d IH | d IH | d IH | d IH | d IH | d IH | d IH
                  | d IH | d IH]; [reflexivity | ..];
    cbn [NilEmpty.string_of_uint Decimal.nb_digits];
    rewrite Nat2Z.inj_succ, <- IH; cbn [PyStr.digit_count];
    match goal with
    | |- context [PyStr.isdecimal ?c] =>
        change (PyStr.isdecimal c) with true
    end; lia.
Qed.

Lemma uint_value_lower d :
  forall acc,
    0 <= acc -> acc * 10 ^ Z.of_nat (Decimal.nb_digits d) <= uint_value acc d.
Proof.
  induction d as [| d IH | d IH | d IH | d IH | d IH | d IH | d IH | d IH
                  | d IH | d IH]; intros acc Hacc;
    cbn [uint_value Decimal.nb_digits]; [simpl; lia | ..];
    rewrite Nat2Z.inj_succ, Z.pow_succ_r by lia;
    pose proof (Z.pow_nonneg 10 (Z.of_nat (Decimal.nb_digits d))
                  ltac:(lia)) as Hpow;
    match goal with
    | |- _ <= uint_value ?a d => pose proof (IH a ltac:(lia))
    end; nia.
Qed.

(** A numeral without leading zeros is at least the power of ten of its
    length. *)
Lemma uint_value_normal d :
  Decimal.unorm d = d -> d <> Decimal.D0 Decimal.Nil ->
  10 ^ (Z.of_nat (Decimal.nb_digits d) - 1) <= uint_value 0 d.
Proof.
  intros Hnorm Hnz.
  assert (Hhead : forall k, 1 <= k -> forall u : Decimal.uint,
            10 ^ (Z.of_nat (S (Decimal.nb_digits u)) - 1) <= uint_value k u).
  { intros k Hk u. pose proof (uint_value_lower u k ltac:(lia)) as Hlow.
    replace (Z.of_nat (S (Decimal.nb_digits u)) - 1)
      with (Z.of_nat (Decimal.nb_digits u)) by lia.
    pose proof (Z.pow_nonneg 10 (Z.of_nat (Decimal.nb_digits u)) ltac:(lia)).
    nia. }
  destruct d as [| d | d | d | d | d | d | d | d | d | d];
    cbn [uint_value Decimal.nb_digits];
    try (apply Hhead; lia).
  - discriminate Hnorm.
  - exfalso. unfold Decimal.unorm in Hnorm. cbn [Decimal.nzhead] in Hnorm.
    pose proof (DecimalFacts.nb_digits_nzhead d) as Hlen.
    destruct (Decimal.nzhead d) as [| u | u | u | u | u | u | u | u | u | u];
      try discriminate Hnorm.
    + injection Hnorm as <-. now apply Hnz.
    + injection Hnorm as ->. cbn [Decimal.nb_digits] in Hlen. lia.
Qed.

(** A number below the [k]-th power of ten is written with at most [k]
    digits. *)
Lemma decimal_digit_count n k :
  1 <= k -> 0 <= n < 10 ^ k -> PyStr.digit_count (decimal n) <= k.
Proof.
  intros Hk [Hn Hlt]. rewrite decimal_uint, digit_count_uint.
  destruct (Z.to_N n) as [| p] eqn:Hp; [simpl; lia |].
  change (N.to_uint (N.pos p)) with (Pos.to_uint p).
  assert (Hnorm : Decimal.unorm (Pos.to_uint p) = Pos.to_uint p).
  { rewrite <- DecimalPos.Unsigned.to_of, DecimalPos.Unsigned.of_to.
    reflexivity. }
  pose proof (uint_value_normal _ Hnorm
                (DecimalPos.Unsigned.to_uint_nonzero p)) as Hlow.
  rewrite uint_value_zero, DecimalPos.Unsigned.of_to in Hlow.
  assert (Hvalue : Z.of_N (N.pos p) = n) by lia.
  rewrite Hvalue in Hlow.
  destruct (Z.le_gt_cases (Z.of_nat (Decimal.nb_digits (Pos.to_uint p))) k)
    as [Hle | Hgt]; [exact Hle | exfalso].
  assert (10 ^ k <= 10 ^ (Z.of_nat (Decimal.nb_digits (Pos.to_uint p)) - 1))
    by (apply Z.pow_le_mono_r; lia).
  lia.
Qed.

(** [int] reads back what the decimal rendering wrote, up to the digit
    limit. *)
Lemma int_of_decimal n :
  0 <= n < 10 ^ PyStr.int_max_str_digits ->
  PyStr.int_of (decimal n) = Some n.
Proof.
  intros Hn. rewrite int_of_within_limit.
  - apply int_from_decimal_value. lia.
  - apply decimal_digit_count; [unfold PyStr.int_max_str_digits; lia | exact Hn].
Qed.

Lemma string_of_uint_decimal d :
  all_chars PyStr.isdecimal (NilEmpty.string_of_uint d) = true.
Proof. induction d; simpl; auto. Qed.

Lemma decimal_chars n : all_chars PyStr.isdecimal (decimal n) = true.
Proof. rewrite decimal_uint. apply string_of_uint_decimal. Qed.

Lemma decimal_nonempty n : PyStr.is_empty (decimal n) = false.
Proof.
  unfold decimal, NilZero.string_of_uint.
  destruct (N.to_uint (Z.to_N n)); reflexivity.
Qed.

End DecimalText.

(** ** Parsing dotted decimal text *)

#[local] Arguments String.append !s1 s2 / : simpl nomatch.

Section RenderedVersions.

Lemma decimal_char c :
  PyStr.isdecimal c = true ->
  PyStr.isspace c = false /\ PyStr.isdigit c = true
  /\ Ascii.eqb c "." = false /\ Ascii.eqb c "-" = false
  /\ c <> "v"%char /\ c <> "V"%char.
Proof.
  destruct c as [[] [] [] [] [] [] [] []]; vm_compute;
    intros H; try discriminate H; repeat split; discriminate.
Qed.

Lemma version_char_plain c :
  version_char c = true ->
  PyStr.isspace c = false /\ Ascii.eqb c "-" = false.
Proof.
  unfold version_char. intros H. apply orb_true_iff in H as [H | H].
  - now destruct (decimal_char c H) as (? & _ & _ & ? & _).
  - apply Ascii.eqb_eq in H. now subst.
Qed.

Lemma startswith_char a c r :
  PyStr.startswith (String a "") (String c r)
  = if ascii_dec a c then true else false.
Proof.
  unfold PyStr.startswith.
  change (String.prefix (String a "") (String c r))
    with (match ascii_dec a c with
          | left _ => String.prefix "" r
          | right _ => false
          end).
  destruct (ascii_dec a c); [now destruct r | reflexivity].
Qed.

Lemma append_empty_r s : s +:+ "" = s.
Proof. induction s as [| c r IH]; simpl; [reflexivity | now rewrite IH]. Qed.

Lemma append_assoc (x y z : string) : (x +:+ y) +:+ z = x +:+ (y +:+ z).
Proof. induction x as [| c r IH]; simpl; [reflexivity | now rewrite IH]. Qed.

Lemma all_chars_app p x y :
  all_chars p (x +:+ y) = all_chars p x && all_chars p y.
Proof.
  induction x as [| c r IH]; simpl; [reflexivity |].
  now rewrite IH, andb_assoc.
Qed.

Lemma all_chars_impl (p q : ascii -> bool) s :
  (forall c, p c = true -> q c = true) ->
  all_chars p s = true -> all_chars q s = true.
Proof.
  intros Hpq. induction s as [| c r IH]; simpl; [easy |].
  intros H. apply andb_true_iff in H as [Hc Hr].
  now rewrite (Hpq c Hc), IH.
Qed.

(** Trailing whitespace is only looked for behind the last other
    character. *)
Lemma rstrip_app x y :
  all_chars (fun c => negb (PyStr.isspace c)) x = true ->
  PyStr.rstrip (x +:+ y) = x +:+ PyStr.rstrip y.
Proof.
  induction x as [| c r IH]; simpl; [reflexivity |].
  intros H. apply andb_true_iff in H as [Hc Hr].
  apply negb_true_iff in Hc. now rewrite Hc, IH.
Qed.

Lemma strip_app c x y :
  all_chars (fun c => negb (PyStr.isspace c)) (String c x) = true ->
  PyStr.strip (String c x +:+ y) = String c x +:+ PyStr.rstrip y.
Proof.
  intros H. unfold PyStr.strip.
  assert (Hl : PyStr.lstrip (String c x +:+ y) = String c x +:+ y).
  { simpl in *. apply andb_true_iff in H as [Hc _].
    apply negb_true_iff in Hc. now rewrite Hc. }
  rewrite Hl. now apply rstrip_app.
Qed.

Lemma contains_none sep s :
  all_chars (fun c => negb (Ascii.eqb c sep)) s = true ->
  PyStr.contains (String sep "") s = false.
Proof.
  induction s as [| c r IH]; simpl; [reflexivity |].
  intros H. apply andb_true_iff in H as [Hc Hr].
  rewrite (IH Hr), orb_false_r.
  destruct (ascii_dec sep c) as [-> | _]; [| reflexivity].
  now rewrite Ascii.eqb_refl in Hc.
Qed.

Lemma contains_app_sep sep x y :
  PyStr.contains (String sep "") (x +:+ String sep y) = true.
Proof.
  induction x as [| c r IH]; simpl.
  - destruct (ascii_dec sep sep); [now destruct y | contradiction].
  - rewrite IH. apply orb_true_r.
Qed.

Lemma split_first_app_sep sep x y :
  all_chars (fun c => negb (Ascii.eqb c sep)) x = true ->
  PyStr.split_first sep (x +:+ String sep y) = x.
Proof.
  induction x as [| c r IH]; simpl.
  - now rewrite Ascii.eqb_refl.
  - intros H. apply andb_true_iff in H as [Hc Hr].
    apply negb_true_iff in Hc. now rewrite Hc, IH.
Qed.

Lemma split_none sep s :
  all_chars (fun c => negb (Ascii.eqb c sep)) s = true ->
  PyStr.split sep s = [s].
Proof.
  induction s as [| c r IH]; simpl; [reflexivity |].
  intros H. apply andb_true_iff in H as [Hc Hr].
  apply negb_true_iff in Hc. now rewrite Hc, IH.
Qed.

Lemma split_app_sep sep x y :
  all_chars (fun c => negb (Ascii.eqb c sep)) x = true ->
  PyStr.split sep (x +:+ String sep y) = x :: PyStr.split sep y.
Proof.
  induction x as [| c r IH]; simpl.
  - now rewrite Ascii.eqb_refl.
  - intros H. apply andb_true_iff in H as [Hc Hr].
    apply negb_true_iff in Hc. now rewrite Hc, IH.
Qed.

Lemma leading_digits_all s :
  all_chars PyStr.isdigit s = true -> leading_digits s = s.
Proof.
  induction s as [| c r IH]; simpl; [reflexivity |].
  intros H. apply andb_true_iff in H as [Hc Hr]. now rewrite Hc, IH.
Qed.

Lemma decimal_no (sep : ascii) n :
  PyStr.isdecimal sep = false ->
  all_chars (fun c => negb (Ascii.eqb c sep)) (decimal n) = true.
Proof.
  intros Hsep. apply (all_chars_impl PyStr.isdecimal); [| apply decimal_chars].
  intros c Hc. apply negb_true_iff.
  destruct (Ascii.eqb_spec c sep) as [-> |]; [congruence | reflexivity].
Qed.

Lemma render_version_chars ns :
  all_chars version_char (render_version ns) = true.
Proof.
  assert (Hdec : forall n, all_chars version_char (decimal n) = true).
  { intros n. apply (all_chars_impl PyStr.isdecimal); [| apply decimal_chars].
    intros c Hc. unfold version_char. now rewrite Hc. }
  induction ns as [| n [| m rest] IH]; [reflexivity | apply Hdec |].
  change (render_version (n :: m :: rest))
    with (decimal n +:+ "." +:+ render_version (m :: rest)).
  now rewrite !all_chars_app, Hdec, IH.
Qed.

Lemma render_version_head ns :
  ns <> [] ->
  exists c r, render_version ns = String c r /\ PyStr.isdecimal c = true.
Proof.
  intros Hns. destruct ns as [| n rest]; [contradiction |].
  pose proof (decimal_chars n) as Hchars.
  pose proof (decimal_nonempty n) as Hne.
  destruct (decimal n) as [| c r] eqn:Hd; [discriminate |].
  simpl in Hchars. apply andb_true_iff in Hchars as [Hc _].
  destruct rest as [| m rest].
  - exists c, r. simpl. now rewrite Hd.
  - exists c, (r +:+ "." +:+ render_version (m :: rest)).
    change (render_version (n :: m :: rest))
      with (decimal n +:+ "." +:+ render_version (m :: rest)).
    now rewrite Hd.
Qed.

Lemma split_render_version ns :
  ns <> [] -> PyStr.split "." (render_version ns) = map decimal ns.
Proof.
  induction ns as [| n [| m rest] IH]; intros Hns; [contradiction | |].
  - simpl. now rewrite split_none by now apply decimal_no.
  - change (render_version (n :: m :: rest))
      with (decimal n +:+ String "." (render_version (m :: rest))).
    rewrite split_app_sep by now apply decimal_no.
    rewrite IH by discriminate. reflexivity.
Qed.

Lemma parse_parts_decimal ns :
  Forall representable ns -> parse_parts (map decimal ns) = Ok ns.
Proof.
  induction 1 as [| n rest Hn _ IH]; simpl; [reflexivity |].
  rewrite leading_digits_all.
  - now rewrite decimal_nonempty, (int_of_decimal n Hn), IH.
  - apply (all_chars_impl PyStr.isdecimal); [| apply decimal_chars].
    intros c Hc. now destruct (decimal_char c Hc) as (_ & ? & _).
Qed.

Lemma not_space_of_version_char s :
  all_chars version_char s = true ->
  all_chars (fun c => negb (PyStr.isspace c)) s = true.
Proof.
  apply all_chars_impl. intros c Hc. apply negb_true_iff.
  now destruct (version_char_plain c Hc).
Qed.

Lemma no_dash_of_version_char s :
  all_chars version_char s = true ->
  all_chars (fun c => negb (Ascii.eqb c "-")) s = true.
Proof.
  apply all_chars_impl. intros c Hc. apply negb_true_iff.
  now destruct (version_char_plain c Hc).
Qed.

(** The text of a version, alone or followed by a dash and anything,
    parses to its components. *)
Lemma parse_parts_core ns tail :
  ns <> [] -> Forall representable ns ->
  tail = "" \/ (exists t, tail = String "-" t) ->
  let v := render_version ns +:+ tail in
  parse_parts
    (PyStr.split "."
       (if PyStr.contains "-" v then PyStr.split_first "-" v else v))
  = Ok ns.
Proof.
  intros Hns Hpos Htail v.
  pose proof (no_dash_of_version_char _ (render_version_chars ns)) as Hdash.
  assert (Hcore : (if PyStr.contains "-" v then PyStr.split_first "-" v else v)
                  = render_version ns).
  { subst v. destruct Htail as [-> | [t ->]].
    - rewrite append_empty_r. now rewrite contains_none.
    - now rewrite contains_app_sep, split_first_app_sep. }
  rewrite Hcore, split_render_version by exact Hns.
  now apply parse_parts_decimal.
Qed.

Lemma parse_semver_rendered ns :
  ns <> [] -> Forall representable ns ->
  parse_semver (PStr (render_version ns)) = Ok ns.
Proof.
  intros Hns Hpos.
  destruct (render_version_head ns Hns) as (c & r & Hr & Hc).
  pose proof (not_space_of_version_char _ (render_version_chars ns)) as Hsp.
  unfold parse_semver. rewrite Hr. cbn [truthy PyStr.is_empty negb].
  rewrite <- (append_empty_r (String c r)), strip_app by now rewrite <- Hr.
  cbn [PyStr.rstrip]. rewrite append_empty_r.
  destruct (decimal_char c Hc) as (_ & _ & _ & _ & Hv & HV).
  assert (Hstart : PyStr.startswith "v" (String c r)
                   || PyStr.startswith "V" (String c r) = false).
  { rewrite !startswith_char.
    destruct (ascii_dec "v" c); [congruence |].
    destruct (ascii_dec "V" c); [congruence | reflexivity]. }
  rewrite Hstart, <- Hr.
  pose proof (parse_parts_core ns "" Hns Hpos (or_introl eq_refl)) as H.
  cbv zeta in H. now rewrite append_empty_r in H.
Qed.

Lemma parse_semver_decorated (v : ascii) ns suffix :
  v = "v"%char \/ v = "V"%char ->
  ns <> [] -> Forall representable ns ->
  parse_semver
    (PStr (String v (render_version ns +:+ String "-" suffix)))
  = Ok ns.
Proof.
  intros Hv Hns Hpos.
  pose proof (not_space_of_version_char _ (render_version_chars ns)) as Hsp.
  unfold parse_semver. cbn [truthy PyStr.is_empty negb].
  replace (String v (render_version ns +:+ String "-" suffix))
    with (String v (render_version ns +:+ "-") +:+ suffix)
    by (simpl; now rewrite append_assoc).
  rewrite strip_app.
  2:{ simpl. rewrite all_chars_app, Hsp. simpl.
      now destruct Hv as [-> | ->]. }
  assert (Hstart : forall rest,
    PyStr.startswith "v" (String v rest) || PyStr.startswith "V" (String v rest)
    = true).
  { intros rest. rewrite !startswith_char.
    destruct Hv as [-> | ->].
    - destruct (ascii_dec "v" "v"); [reflexivity | contradiction].
    - destruct (ascii_dec "V" "V"); [apply orb_true_r | contradiction]. }
  cbn [String.append]. rewrite Hstart. cbn [PyStr.drop1].
  rewrite append_assoc.
  exact (parse_parts_core ns (String "-" (PyStr.rstrip suffix)) Hns Hpos
           (or_intror (ex_intro _ _ eq_refl))).
Qed.

Lemma digit_count_all s :
  all_chars PyStr.isdecimal s = true ->
  PyStr.digit_count s = Z.of_nat (String.length s).
Proof.
  induction s as [| c r IH]; [reflexivity |].
  cbn [all_chars PyStr.digit_count String.length].
  intros H. apply andb_true_iff in H as [Hc Hr].
  rewrite Hc, (IH Hr). lia.
Qed.

(** A version that is one run of more than 4300 digits makes
    [parse_semver] raise. *)
Lemma parse_semver_too_long digits :
  all_chars PyStr.isdecimal digits = true ->
  PyStr.int_max_str_digits < Z.of_nat (String.length digits) ->
  parse_semver (PStr digits) = Raise ValueError.
Proof.
  intros Hdec Hlong.
  destruct digits as [| c r].
  { simpl in Hlong. unfold PyStr.int_max_str_digits in Hlong. lia. }
  assert (Hc : PyStr.isdecimal c = true)
    by (simpl in Hdec; now apply andb_true_iff in Hdec as [? _]).
  destruct (decimal_char c Hc) as (_ & _ & _ & _ & Hv & HV).
  assert (Hspace :
    all_chars (fun c => negb (PyStr.isspace c)) (String c r) = true).
  { revert Hdec. apply all_chars_impl. intros a Ha. apply negb_true_iff.
    now destruct (decimal_char a Ha). }
  assert (Hdash :
    all_chars (fun c => negb (Ascii.eqb c "-")) (String c r) = true).
  { revert Hdec. apply all_chars_impl. intros a Ha. apply negb_true_iff.
    now destruct (decimal_char a Ha) as (_ & _ & _ & ? & _). }
  assert (Hdot :
    all_chars (fun c => negb (Ascii.eqb c ".")) (String c r) = true).
  { revert Hdec. apply all_chars_impl. intros a Ha. apply negb_true_iff.
    now destruct (decimal_char a Ha) as (_ & _ & ? & _). }
  assert (Hdigit : all_chars PyStr.isdigit (String c r) = true).
  { revert Hdec. apply all_chars_impl. intros a Ha.
    now destruct (decimal_char a Ha) as (_ & ? & _). }
  unfold parse_semver. cbn [truthy PyStr.is_empty negb].
  rewrite <- (append_empty_r (String c r)), strip_app by exact Hspace.
  cbn [PyStr.rstrip]. rewrite append_empty_r.
  assert (Hstart : PyStr.startswith "v" (String c r)
                   || PyStr.startswith "V" (String c r) = false).
  { rewrite !startswith_char.
    destruct (ascii_dec "v" c); [congruence |].
    destruct (ascii_dec "V" c); [congruence | reflexivity]. }
  rewrite Hstart, (contains_none "-" _ Hdash), (split_none "." _ Hdot).
  cbn [parse_parts]. rewrite (leading_digits_all _ Hdigit).
  cbn [PyStr.is_empty]. unfold PyStr.int_of.
  rewrite (digit_count_all _ Hdec).
  destruct (Z.ltb_spec PyStr.int_max_str_digits
              (Z.of_nat (String.length (String c r)))); [reflexivity | lia].
Qed.

Lemma render_version_truthy ns :
  ns <> [] -> truthy (PStr (render_version ns)) = true.
Proof.
  intros Hns. destruct (render_version_head ns Hns) as (c & r & -> & _).
  reflexivity.
Qed.

End RenderedVersions.

(** ** Version comparison on all values *)

Section ComparatorLaws.

Lemma int_from_nonneg s :
  forall acc n, 0 <= acc -> PyStr.int_from acc s = Some n -> 0 <= n.
Proof.
  induction s as [| c r IH]; simpl; intros acc n Hacc.
  - intros [= <-]. exact Hacc.
  - destruct (PyStr.isdecimal c) eqn:Hc; [| discriminate].
    apply IH. unfold PyStr.digit_value.
    unfold PyStr.isdecimal, PyStr.in_range in Hc.
    apply andb_true_iff in Hc as [Hlo _]. apply N.leb_le in Hlo. lia.
Qed.

Lemma parse_parts_nonneg parts :
  forall numbers,
    parse_parts parts = Ok numbers ->
    Forall (fun n => 0 <= n) numbers /\ length numbers = length parts.
Proof.
  induction parts as [| part rest IH]; simpl; intros numbers.
  - intros [= <-]. split; [constructor | reflexivity].
  - destruct (PyStr.is_empty (leading_digits part)).
    + simpl. destruct (parse_parts rest) as [l | e]; [| discriminate].
      simpl. intros [= <-]. destruct (IH l eq_refl) as [Hl Hlen].
      split; [constructor; [lia | exact Hl] | simpl; now rewrite Hlen].
    + destruct (PyStr.int_of (leading_digits part)) as [n |] eqn:Hn;
        [| discriminate].
      simpl. destruct (parse_parts rest) as [l | e]; [| discriminate].
      simpl. intros [= <-]. destruct (IH l eq_refl) as [Hl Hlen].
      split; [| simpl; now rewrite Hlen].
      constructor; [| exact Hl].
      unfold PyStr.int_of in Hn.
      destruct (PyStr.int_max_str_digits <? _); [discriminate |].
      now apply (int_from_nonneg _ 0 n ltac:(lia) Hn).
Qed.

Lemma split_nonempty sep s : PyStr.split sep s <> [].
Proof.
  destruct s as [| c r]; simpl; [discriminate |].
  destruct (Ascii.eqb c sep); [discriminate |].
  now destruct (PyStr.split sep r).
Qed.

Lemma parse_semver_shape v numbers :
  parse_semver v = Ok numbers ->
  Forall (fun n => 0 <= n) numbers /\ (truthy v = true -> numbers <> []).
Proof.
  unfold parse_semver. destruct (truthy v) eqn:Hv; simpl.
  - destruct v; try discriminate.
    intros H. apply parse_parts_nonneg in H as [Hpos Hlen].
    split; [exact Hpos |]. intros _ ->.
    simpl in Hlen. symmetry in Hlen. apply length_zero_iff_nil in Hlen.
    now apply split_nonempty in Hlen.
  - intros [= <-]. split; [constructor | discriminate].
Qed.

Lemma compare_pairs_range ps :
  compare_pairs ps = -1 \/ compare_pairs ps = 0 \/ compare_pairs ps = 1.
Proof.
  induction ps as [| [l r] rest IH]; simpl; [auto |].
  destruct (l >? r); [auto |]. destruct (l <? r); auto.
Qed.

(** The four ways in which [compare_semver] returns. *)
Lemma compare_semver_cases a b x :
  compare_semver a b = Ok x ->
  (truthy a = false /\ truthy b = false /\ x = 0)
  \/ (truthy a = true /\ truthy b = false /\ x = 1)
  \/ (truthy a = false /\ truthy b = true /\ x = -1)
  \/ (truthy a = true /\ truthy b = true
      /\ exists l r,
           parse_semver a = Ok l /\ parse_semver b = Ok r
           /\ x = compare_versions l r).
Proof.
  unfold compare_semver, py_or.
  destruct (truthy a) eqn:Ha, (truthy b) eqn:Hb; simpl.
  - destruct (parse_semver a) as [l | e]; [| discriminate]. simpl.
    destruct (parse_semver b) as [r | e]; [| discriminate]. simpl.
    intros [= <-]. right. right. right. repeat split. now exists l, r.
  - intros [= <-]. auto.
  - intros [= <-]. auto 6.
  - intros [= <-]. auto.
Qed.

Lemma compare_versions_antisym l r :
  compare_versions r l = - compare_versions l r.
Proof.
  eapply first_difference_functional;
    [apply compare_versions_first_difference |].
  apply first_difference_sym, compare_versions_first_difference.
Qed.

Lemma compare_versions_padded l k :
  compare_versions l (l ++ repeat 0 k) = 0.
Proof.
  eapply first_difference_functional;
    [apply compare_versions_first_difference |].
  apply fd_equal. intros i. symmetry.
  replace (l ++ repeat 0 k) with (pad_zeros l (length l + k)).
  - apply component_pad_zeros.
  - unfold pad_zeros. f_equal. f_equal. lia.
Qed.

End ComparatorLaws.

(** X1: [parse_semver] returns on every string in which every [isdigit]
    character is a decimal digit and no run of digits is longer than the
    4300 digits [int()] accepts, whatever else the string holds; the
    components it returns are non-negative, and there is at least one
    unless the string is empty.  On a version that is one run of more
    than 4300 digits it raises [ValueError]. *)
Theorem parse_semver_lenient (s : string) :
  all_chars plain s = true -> convertible s = true ->
  (exists numbers,
     parse_semver (PStr s) = Ok numbers
     /\ Forall (fun n => 0 <= n) numbers
     /\ (s <> "" -> numbers <> []))
  /\ (forall digits,
        all_chars PyStr.isdecimal digits = true ->
        PyStr.int_max_str_digits < Z.of_nat (String.length digits) ->
        parse_semver (PStr digits) = Raise ValueError).
Proof.
  intros Hplain Hconv. split; [| apply parse_semver_too_long].
  destruct (parse_semver_plain s Hplain Hconv) as [numbers Hparse].
  exists numbers. split; [exact Hparse |].
  destruct (parse_semver_shape _ _ Hparse) as [Hpos Hne].
  split; [exact Hpos |].
  intros Hs. apply Hne. now destruct s.
Qed.

Lemma parse_semver_lenient_witness :
  all_chars plain " V1.x.03rc-4 " = true
  /\ convertible " V1.x.03rc-4 " = true
  /\ parse_semver (PStr " V1.x.03rc-4 ") = Ok [1; 0; 3]
  /\ exists numbers,
       parse_semver (PStr " V1.x.03rc-4 ") = Ok numbers
       /\ Forall (fun n => 0 <= n) numbers
       /\ (" V1.x.03rc-4 " <> "" -> numbers <> []).
Proof.
  split; [reflexivity |]. split; [reflexivity |]. split; [reflexivity |].
  exact (proj1 (parse_semver_lenient " V1.x.03rc-4 " eq_refl eq_refl)).
Defined.

(** X2: parsing inverts dotted decimal rendering.  A non-empty sequence
    of non-negative integers of at most 4300 digits each, written in
    decimal and joined by dots, parses back to the sequence, also behind a
    "v" or "V" and in front of a dash followed by any text. *)
Theorem parse_semver_render (ns : list Z) (suffix : string) :
  ns <> [] -> Forall representable ns ->
  parse_semver (PStr (render_version ns)) = Ok ns
  /\ parse_semver (PStr ("v" +:+ render_version ns +:+ "-" +:+ suffix)) = Ok ns
  /\ parse_semver (PStr ("V" +:+ render_version ns +:+ "-" +:+ suffix)) = Ok ns.
Proof.
  intros Hns Hpos.
  split; [now apply parse_semver_rendered |].
  split.
  - exact (parse_semver_decorated "v" ns suffix (or_introl eq_refl) Hns Hpos).
  - exact (parse_semver_decorated "V" ns suffix (or_intror eq_refl) Hns Hpos).
Qed.

Lemma parse_semver_render_witness :
  render_version [2; 10; 0] = "2.10.0"
  /\ Forall representable [2; 10; 0]
  /\ parse_semver (PStr "v2.10.0-rc.1+build 7") = Ok [2; 10; 0].
Proof.
  assert (Hrange : Forall representable [2; 10; 0])
    by (repeat constructor; vm_compute; discriminate).
  split; [reflexivity |]. split; [exact Hrange |].
  exact (proj1 (proj2 (parse_semver_render [2; 10; 0] "rc.1+build 7"
                         ltac:(discriminate) Hrange))).
Defined.

(** X3: a "v" prefix, a dash suffix and trailing zero components do not
    change how a version compares: a decorated version, with components
    of at most 4300 digits each, compares equal to the same version with
    any number of ".0" appended. *)
Theorem compare_semver_decorations (ns : list Z) (k : nat) (suffix : string) :
  ns <> [] -> Forall representable ns ->
  compare_semver
    (PStr ("v" +:+ render_version ns +:+ "-" +:+ suffix))
    (PStr (render_version (ns ++ repeat 0 k)))
  = Ok 0.
Proof.
  intros Hns Hpos.
  assert (Hns' : ns ++ repeat 0 k <> []) by now destruct ns.
  assert (Hzero : representable 0).
  { split; [lia |]. apply Z.pow_pos_nonneg; [lia |].
    unfold PyStr.int_max_str_digits. lia. }
  assert (Hpos' : Forall representable (ns ++ repeat 0 k)).
  { apply Forall_app. split; [exact Hpos |].
    clear -Hzero. induction k; simpl; constructor; assumption. }
  rewrite (compare_semver_parsed _ _ ns (ns ++ repeat 0 k)).
  - now rewrite compare_versions_padded.
  - reflexivity.
  - now apply render_version_truthy.
  - exact (parse_semver_decorated "v" ns suffix (or_introl eq_refl) Hns Hpos).
  - now apply parse_semver_rendered.
Qed.

Lemma compare_semver_decorations_witness :
  Forall representable [1; 2]
  /\ compare_semver (PStr "v1.2-beta.3") (PStr "1.2.0.0") = Ok 0.
Proof.
  assert (Hrange : Forall representable [1; 2])
    by (repeat constructor; vm_compute; discriminate).
  split; [exact Hrange |].
  exact (compare_semver_decorations [1; 2] 2 "beta.3"
           ltac:(discriminate) Hrange).
Defined.

(** X4: on all values, absent, empty or not, whenever [compare_semver]
    returns its result is -1, 0 or 1, the comparison in the other
    direction returns the opposite, and the results are transitive. *)
Theorem compare_semver_laws (a b c : value) (x y z : Z) :
  compare_semver a b = Ok x ->
  compare_semver b c = Ok y ->
  compare_semver a c = Ok z ->
  (x = -1 \/ x = 0 \/ x = 1)
  /\ compare_semver b a = Ok (- x)
  /\ (x >= 0 -> y >= 0 -> z >= 0).
Proof.
  intros Hab Hbc Hac.
  pose proof (compare_semver_cases _ _ _ Hab) as Cab.
  pose proof (compare_semver_cases _ _ _ Hbc) as Cbc.
  pose proof (compare_semver_cases _ _ _ Hac) as Cac.
  split; [| split].
  - destruct Cab as [(_ & _ & ->) | [(_ & _ & ->) | [(_ & _ & ->) | Hp]]];
      auto.
    destruct Hp as (_ & _ & l & r & _ & _ & ->).
    unfold compare_versions. apply compare_pairs_range.
  - destruct Cab as [(Ha & Hb & ->) | [(Ha & Hb & ->) | [(Ha & Hb & ->) | Hp]]].
    + now rewrite compare_semver_falsy_left, Ha.
    + now rewrite compare_semver_falsy_left, Ha.
    + now rewrite compare_semver_falsy_right, Hb.
    + destruct Hp as (Ha & Hb & l & r & Hl & Hr & ->).
      rewrite (compare_semver_parsed _ _ r l) by assumption.
      now rewrite compare_versions_antisym.
  - intros Hx Hy.
    destruct Cab as [(Ha & Hb & ->) | [(Ha & Hb & ->) | [(Ha & Hb & ->) | Hp]]];
      try lia.
    + destruct Cbc as [(_ & Hc & _) | [(Hb' & _) | [(_ & _ & ->) | (Hb' & _)]]];
        try congruence; try lia.
      destruct Cac as [(_ & _ & ->) | [(_ & _ & ->) | [(_ & Hc' & _) | (Ha' & _)]]];
        try congruence; lia.
    + destruct Cbc as [(_ & Hc & _) | [(Hb' & _) | [(_ & _ & ->) | (Hb' & _)]]];
        try congruence; try lia.
      destruct Cac as [(Ha' & _) | [(_ & _ & ->) | [(Ha' & _) | (_ & Hc' & _)]]];
        try congruence; lia.
    + destruct Hp as (Ha & Hb & l & r & Hl & Hr & ->).
      destruct Cbc as [(Hb' & _) | [(_ & Hc & _) | [(Hb' & _) | Hq]]];
        try congruence.
      * destruct Cac as [(Ha' & _) | [(_ & _ & ->) | [(Ha' & _) | (_ & Hc' & _)]]];
          try congruence; lia.
      * destruct Hq as (_ & Hc & r' & t & Hr' & Ht & ->).
        destruct Cac as [(Ha' & _) | [(_ & Hc' & _) | [(Ha' & _) | Hs]]];
          try congruence.
        destruct Hs as (_ & _ & l' & t' & Hl' & Ht' & ->).
        assert (l' = l) by congruence. assert (r' = r) by congruence.
        assert (t' = t) by congruence. subst.
        eapply first_difference_trans; [| | | exact Hx | exact Hy];
          apply compare_versions_first_difference.
Qed.

Lemma compare_semver_laws_witness :
  compare_semver (PStr "v2.0") (PStr "1.9.9") = Ok 1
  /\ compare_semver (PStr "1.9.9") PNone = Ok 1
  /\ compare_semver (PStr "v2.0") PNone = Ok 1
  /\ compare_semver (PStr "1.9.9") (PStr "v2.0") = Ok (- 1).
Proof.
  split; [reflexivity |]. split; [reflexivity |]. split; [reflexivity |].
  exact (proj1 (proj2 (compare_semver_laws (PStr "v2.0") (PStr "1.9.9") PNone
                         1 1 1 eq_refl eq_refl eq_refl))).
Defined.

(** ** Release resolution *)

Section ResolverLaws.

Lemma forallb_permutation {A} (f : A -> bool) xs ys :
  Permutation xs ys -> forallb f xs = forallb f ys.
Proof.
  induction 1 as [| x xs ys _ IH | x y xs | xs ys zs _ IH1 _ IH2]; simpl.
  - reflexivity.
  - now rewrite IH.
  - now rewrite !andb_assoc, (andb_comm (f y)).
  - congruence.
Qed.

Lemma all_keywords_in_lowered keywords name :
  all_keywords_in keywords name
  = forallb (fun k => PyStr.contains k name) (map PyStr.lower keywords).
Proof.
  unfold all_keywords_in.
  induction keywords as [| k rest IH]; simpl; [reflexivity | now rewrite IH].
Qed.

Lemma scan_assets_keywords keywords keywords' tag assets :
  (forall name, all_keywords_in keywords name = all_keywords_in keywords' name) ->
  scan_assets keywords tag assets = scan_assets keywords' tag assets.
Proof.
  intros Hsame. induction assets as [| asset rest IH]; simpl; [reflexivity |].
  destruct asset; try reflexivity.
  destruct (dict_lookup items "name") as [[| | | | n | |] |]; try reflexivity.
  now rewrite Hsame, IH.
Qed.

Lemma scan_tags_keywords prerelease keywords keywords' tags :
  (forall name, all_keywords_in keywords name = all_keywords_in keywords' name) ->
  scan_tags prerelease keywords tags = scan_tags prerelease keywords' tags.
Proof.
  intros Hsame. induction tags as [| tag rest IH]; simpl; [reflexivity |].
  destruct tag; try reflexivity.
  rewrite IH.
  destruct (dict_get items "assets" (PList [])); try reflexivity.
  now rewrite (scan_assets_keywords keywords keywords').
Qed.

(** The flag only matters on tags marked prerelease. *)
Lemma scan_tags_flag keywords tags :
  (forall t, In (PDict t) tags -> marked t "prerelease" = false) ->
  scan_tags true keywords tags = scan_tags false keywords tags.
Proof.
  induction tags as [| tag rest IH]; intros Hnone; simpl; [reflexivity |].
  destruct tag as [| | | | | | t]; try reflexivity.
  rewrite !skip_condition_excluded, IH by (intros; apply Hnone; now right).
  unfold excluded. rewrite (Hnone t (or_introl eq_refl)). reflexivity.
Qed.




(** The inner loop raises at a raising asset that it reaches. *)
Lemma scan_assets_raises keywords tag good bad more :
  forallb well_formed_asset good = true ->
  find (asset_matches keywords) good = None ->
  raising_asset keywords bad = true ->
  exists e, scan_assets keywords tag (good ++ bad :: more) = Raise e.
Proof.
  intros Hwf Hnone Hbad.
  induction good as [| asset good IH]; simpl.
  - destruct bad as [| | | | | | a]; eauto.
    simpl in Hbad.
    destruct (dict_lookup a "name") as [[| | | | n | |] |]; eauto.
    apply andb_true_iff in Hbad as [Hm Hurl]. rewrite Hm.
    destruct (dict_lookup a "browser_download_url"); [discriminate | eauto].
  - simpl in Hwf. apply andb_true_iff in Hwf as [Hasset Hgood].
    simpl in Hnone.
    destruct (asset_matches keywords asset) eqn:Hm; [discriminate |].
    destruct asset as [| | | | | | a]; try discriminate.
    simpl in Hasset, Hm.
    destruct (dict_lookup a "name") as [[| | | | n | |] |]; try discriminate.
    rewrite Hm. now apply IH.
Qed.

End ResolverLaws.

(** X5: the keywords are matched without regard to their case or their
    order: two keyword lists whose lower-cased members are the same up to
    order give the same result on every response. *)
Theorem get_latest_release_url_keywords (network : string -> result value)
    (repo : string) (keywords keywords' : list string) (prerelease : bool) :
  Permutation (map PyStr.lower keywords) (map PyStr.lower keywords') ->
  get_latest_release_url network repo keywords prerelease
  = get_latest_release_url network repo keywords' prerelease.
Proof.
  intros Hperm.
  assert (Hsame : forall name,
             all_keywords_in keywords name = all_keywords_in keywords' name).
  { intros name. rewrite !all_keywords_in_lowered.
    now apply forallb_permutation. }
  unfold get_latest_release_url, resolve_release.
  destruct (network repo) as [[| | | | | tags |] | e]; simpl; try reflexivity.
  destruct tags as [| tag rest]; [reflexivity |].
  now rewrite (scan_tags_keywords prerelease keywords keywords').
Qed.

Lemma get_latest_release_url_keywords_witness :
  get_latest_release_url example_network MFW_REPO ["X86_64"; "Win"; "MAA"] false
  = get_latest_release_url example_network MFW_REPO example_keywords false
  /\ get_latest_release_url example_network MFW_REPO ["X86_64"; "Win"; "MAA"]
       false
     = (PStr "https://dl/v1.0.0/win", PStr "MAA-win-x86_64-v1.0.0.zip",
        PStr "v1.0.0").
Proof.
  split; [| reflexivity].
  apply get_latest_release_url_keywords.
  apply (Permutation_rev ["x86_64"; "win"; "maa"]).
Defined.

(** X6: on a feed none of whose tags is marked prerelease, well formed or
    not, the prerelease flag makes no difference to the result. *)
Theorem get_latest_release_url_flag (network : string -> result value)
    (repo : string) (keywords : list string) :
  (forall t, In (PDict t) (feed_of (network repo)) ->
             marked t "prerelease" = false) ->
  get_latest_release_url network repo keywords true
  = get_latest_release_url network repo keywords false.
Proof.
  intros Hnone.
  unfold get_latest_release_url, resolve_release.
  destruct (network repo) as [[| | | | | tags |] | e]; simpl; try reflexivity.
  destruct tags as [| tag rest]; [reflexivity |].
  now rewrite (scan_tags_flag keywords (tag :: rest)).
Qed.

Lemma get_latest_release_url_flag_witness :
  get_latest_release_url example_network MXU_REPO ["mxu"; "win"] true
  = get_latest_release_url example_network MXU_REPO ["mxu"; "win"] false.
Proof.
  apply get_latest_release_url_flag.
  intros t [[= <-] | []]. reflexivity.
Defined.



(** X8: one asset on which the loop raises hides every later release: if
    the first tag that is not passed over is eligible and lists, before
    any match, an asset that is not an object, has no string [name], or
    matches without a [browser_download_url], the result is the
    not-found triple whatever follows in the feed. *)
Theorem get_latest_release_url_poisoned (network : string -> result value)
    (repo : string) (keywords : list string) (prerelease : bool)
    (pre rest good more : list value) (tag : list (string * value))
    (bad : value) :
  network repo = Ok (PList (pre ++ PDict tag :: rest)) ->
  forallb well_formed_tag pre = true ->
  first_match prerelease keywords pre = None ->
  excluded prerelease tag = false ->
  dict_get tag "assets" (PList []) = PList (good ++ bad :: more) ->
  forallb well_formed_asset good = true ->
  find (asset_matches keywords) good = None ->
  raising_asset keywords bad = true ->
  get_latest_release_url network repo keywords prerelease = not_found.
Proof.
  intros Hnet Hpre Hnone Hex Hassets Hgood Hnomatch Hbad.
  unfold get_latest_release_url, resolve_release.
  rewrite Hnet. cbn [bind].
  replace (negb (truthy (PList (pre ++ PDict tag :: rest)))) with false
    by now destruct pre.
  rewrite (scan_tags_app _ _ _ _ Hpre Hnone).
  simpl. rewrite skip_condition_excluded, Hex, Hassets.
  destruct (scan_assets_raises keywords tag good bad more Hgood Hnomatch Hbad)
    as [e ->].
  reflexivity.
Qed.

Lemma get_latest_release_url_poisoned_witness :
  get_latest_release_url
    (fun _ => Ok (PList [PDict [("tag_name", PStr "v9");
                                ("assets", PList [PDict [("label", PStr "x")]])];
                         PDict example_new]))
    MFW_REPO example_keywords true
  = not_found.
Proof.
  apply (get_latest_release_url_poisoned _ MFW_REPO example_keywords true
           [] [PDict example_new] [] []
           [("tag_name", PStr "v9");
            ("assets", PList [PDict [("label", PStr "x")]])]
           (PDict [("label", PStr "x")]));
    reflexivity.
Defined.

(** ** Installation *)

Section InstallLaws.

Variable e : env.
Variables repo product dest payload_dest : string.
Variables installed update_mode : bool.
Variable local_version : value.

Lemma removal_loop_return fuel :
  forall attempt r log,
    removal_loop e dest local_version fuel attempt = Some (LoopReturn r, log) ->
    r = (false, local_version, false).
Proof.
  induction fuel as [| fuel IH]; intros attempt r log; simpl; [discriminate |].
  destruct (removal e dest attempt).
  - discriminate.
  - destruct (operator e attempt) as [text |]; [| discriminate].
    destruct (PyStr.eqb _ _); [now intros [= <- _] |].
    destruct (removal_loop e dest local_version fuel (S attempt))
      as [[exit log'] |] eqn:Hloop; [| discriminate].
    intros [= -> _]. now apply (IH _ _ _ Hloop).
  - now intros [= <- _].
Qed.

Lemma removal_loop_targets fuel :
  forall attempt exit log other,
    removal_loop e dest local_version fuel attempt = Some (exit, log) ->
    In (EvRemove other) log -> other = dest.
Proof.
  induction fuel as [| fuel IH]; intros attempt exit log other; simpl;
    [discriminate |].
  destruct (removal e dest attempt).
  - intros [= _ <-] [[= ->] | []]. reflexivity.
  - destruct (operator e attempt) as [text |].
    + destruct (PyStr.eqb _ _).
      * intros [= _ <-] [[= ->] | [[=] | []]]. reflexivity.
      * destruct (removal_loop e dest local_version fuel (S attempt))
          as [[exit' log'] |] eqn:Hloop; [| discriminate].
        intros [= _ <-] [[= ->] | [[=] | Hin]]; [reflexivity |].
        now apply (IH _ _ _ _ Hloop).
    + intros [= _ <-] [[= ->] | [[=] | []]]. reflexivity.
  - intros [= _ <-] [[= ->] | []]. reflexivity.
Qed.

Let call (fuel : nat) :=
  fetch_and_install e repo product installed dest payload_dest update_mode
    local_version fuel.

Lemma fetch_and_install_sound fuel (before : list event) :
  install_sound e local_version
    (match call fuel with
     | Some (r, log) => Some (r, before ++ log)
     | None => None
     end).
Proof.
  unfold install_sound, call, fetch_and_install, unpack_and_install.
  intros ok version downloaded log.
  destruct (get_latest_release_url _ _ _ _) as [[url filename] remote_version].
  destruct (negb (truthy url) || negb (truthy filename)).
  { intros [= <- <- <- _]. repeat split; congruence. }
  destruct (up_to_date _ _ _ _) as [[|] | x]; try discriminate.
  { intros [= <- <- <- _]. repeat split; congruence. }
  destruct filename as [| | | | name | |]; try discriminate.
  destruct (download_file e url (joinpath (tmp_dir e) name)) eqn:Hdown; simpl.
  2:{ intros [= <- <- <- _]. repeat split; congruence. }
  assert (Hunpack : forall tail,
    match unpack e (joinpath (tmp_dir e) name) payload_dest with
    | PayloadCopied => (true, py_or remote_version local_version, true)
    | _ => (false, local_version, false)
    end = (ok, version, downloaded) ->
    In (EvUnpack (joinpath (tmp_dir e) name) payload_dest) tail ->
    In (EvDownload url (joinpath (tmp_dir e) name)) tail ->
    (ok = false -> version = local_version /\ downloaded = false)
    /\ (downloaded = false -> version = local_version)
    /\ (downloaded = true ->
        ok = true
        /\ exists url archive dest,
             In (EvDownload url archive) tail
             /\ download_file e url archive = true
             /\ In (EvUnpack archive dest) tail
             /\ unpack e archive dest = PayloadCopied)).
  { intros tail Hres Hin Hdl.
    destruct (unpack e (joinpath (tmp_dir e) name) payload_dest) eqn:Hun;
      injection Hres as <- <- <-; repeat split; try congruence.
    eauto 8. }
  destruct (path_exists e dest).
  - destruct (removal_loop e dest local_version fuel 0)
      as [[[| r | x] looplog] |] eqn:Hloop; try discriminate.
    + intros [= Hres <-]. apply Hunpack; [exact Hres | |];
        apply in_or_app; right; simpl; rewrite ?in_app_iff; simpl; auto 8.
    + apply removal_loop_return in Hloop. subst r.
      intros [= <- <- <- _]. repeat split; congruence.
  - intros [= Hres <-]. apply Hunpack; [exact Hres | |];
      apply in_or_app; right; simpl; auto 8.
Qed.

Lemma fetch_and_install_guarded fuel (artifact : string) :
  removal_guarded e
    (match call fuel with
     | Some (r, log) => Some (r, [EvExists artifact] ++ log)
     | None => None
     end).
Proof.
  unfold removal_guarded, call, fetch_and_install.
  intros r log target.
  destruct (get_latest_release_url _ _ _ _) as [[url filename] remote_version].
  destruct (negb (truthy url) || negb (truthy filename)).
  { intros [= _ <-] [[=] | [[=] | []]]. }
  destruct (up_to_date _ _ _ _) as [[|] | x];
    try (intros [= _ <-] [[=] | [[=] | []]]).
  destruct filename as [| | | | name | |];
    try (intros [= _ <-] [[=] | [[=] | []]]).
  destruct (download_file e url (joinpath (tmp_dir e) name)) eqn:Hdown; simpl.
  2:{ intros [= _ <-] [[=] | [[=] | [[=] | []]]]. }
  assert (Hhead : forall tail,
    exists head url' archive tail',
      EvExists artifact :: EvReleases repo
        :: EvDownload url (joinpath (tmp_dir e) name) :: tail
      = head ++ EvDownload url' archive :: tail'
      /\ (forall other, ~ In (EvRemove other) head)
      /\ download_file e url' archive = true).
  { intros tail.
    exists [EvExists artifact; EvReleases repo], url,
      (joinpath (tmp_dir e) name), tail.
    split; [reflexivity |]. split; [| exact Hdown].
    intros other [[=] | [[=] | []]]. }
  destruct (path_exists e dest) eqn:Hdest.
  - destruct (removal_loop e dest local_version fuel 0)
      as [[exit looplog] |] eqn:Hloop; [| discriminate].
    intros [= _ <-] Hin. split; [| apply Hhead].
    destruct Hin as [[=] | [[=] | [[=] | [[=] | Hin]]]].
    apply in_app_or in Hin as [Hin | Hin].
    + now rewrite (removal_loop_targets _ _ _ _ _ Hloop Hin).
    + destruct exit; simpl in Hin;
        [destruct Hin as [[=] | []] | contradiction | contradiction].
  - intros [= _ <-] [[=] | [[=] | [[=] | [[=] | [[=] | []]]]]].
Qed.

Lemma fetch_and_install_fresh (artifact : string) :
  path_exists e dest = false ->
  never_prompts
    (fun fuel =>
       match call fuel with
       | Some (r, log) => Some (r, [EvExists artifact] ++ log)
       | None => None
       end).
Proof.
  intros Hdest. unfold never_prompts, call, fetch_and_install.
  destruct (get_latest_release_url _ _ _ _) as [[url filename] remote_version].
  destruct (negb (truthy url) || negb (truthy filename));
    [split; [reflexivity | eauto] |].
  destruct (up_to_date _ _ _ _) as [[|] | x];
    try (split; [reflexivity | eauto]).
  destruct filename as [| | | | name | |];
    try (split; [reflexivity | eauto]).
  destruct (download_file e url (joinpath (tmp_dir e) name)); simpl;
    [| split; [reflexivity | eauto]].
  rewrite Hdest. split; [reflexivity | eauto].
Qed.




End InstallLaws.

Lemma install_maafw_sound e fuel install_root skip_if_exist update_mode
    local_version :
  install_sound e local_version
    (install_maafw e fuel install_root skip_if_exist update_mode local_version).
Proof.
  rewrite install_maafw_call. cbv zeta.
  destruct (skip_if_exist && _).
  - intros ok version downloaded log [= <- <- <- _].
    repeat split; congruence.
  - apply fetch_and_install_sound.
Qed.

Lemma install_mxu_sound e fuel install_root skip_if_exist update_mode
    local_version :
  install_sound e local_version
    (install_mxu e fuel install_root skip_if_exist update_mode local_version).
Proof.
  rewrite install_mxu_call. cbv zeta.
  destruct (skip_if_exist && _).
  - intros ok version downloaded log [= <- <- <- _].
    repeat split; congruence.
  - apply fetch_and_install_sound.
Qed.

(** X9: whatever the world answers, a result that [install_maafw] or
    [install_mxu] returns is coherent: a failure hands back the local
    version unchanged with the downloaded flag off, a result without
    download hands back the local version, and a result flagged as
    downloaded is a success whose archive was downloaded and whose
    payload was copied. *)
Theorem install_results_sound (e : env) (fuel : nat) (install_root : string)
    (skip_if_exist update_mode : bool) (local_version : value) :
  install_sound e local_version
    (install_maafw e fuel install_root skip_if_exist update_mode local_version)
  /\ install_sound e local_version
       (install_mxu e fuel install_root skip_if_exist update_mode local_version).
Proof.
  split; [apply install_maafw_sound | apply install_mxu_sound].
Qed.

(** X10: [install_maafw] and [install_mxu] attempt to remove the previous
    installation only if it exists and only after the download of its
    replacement has succeeded: in the log of a call that attempts a
    removal, a successful download comes before every attempt. *)
Theorem install_removal_guarded (e : env) (fuel : nat) (install_root : string)
    (skip_if_exist update_mode : bool) (local_version : value) :
  removal_guarded e
    (install_maafw e fuel install_root skip_if_exist update_mode local_version)
  /\ removal_guarded e
       (install_mxu e fuel install_root skip_if_exist update_mode local_version).
Proof.
  split.
  - rewrite install_maafw_call. cbv zeta.
    destruct (skip_if_exist && _).
    + intros r log target [= _ <-] [[=] | []].
    + apply fetch_and_install_guarded.
  - rewrite install_mxu_call. cbv zeta.
    destruct (skip_if_exist && _).
    + intros r log target [= _ <-] [[=] | []].
    + apply fetch_and_install_guarded.
Qed.

(** X11: when nothing exists at the destination ([maafw] directory, resp.
    the [mxu] executable) the call returns without fuel, and its log
    holds no removal attempt and no prompt: a first installation never
    waits for the operator. *)
Theorem install_fresh_never_prompts (e : env) (install_root : string)
    (skip_if_exist update_mode : bool) (local_version : value) :
  (path_exists e (joinpath install_root "maafw") = false ->
   never_prompts
     (fun fuel =>
        install_maafw e fuel install_root skip_if_exist update_mode
          local_version))
  /\ (path_exists e (joinpath install_root (MXU_DIST_NAME (host_os e))) = false ->
      never_prompts
        (fun fuel =>
           install_mxu e fuel install_root skip_if_exist update_mode
             local_version)).
Proof.
  split; intros Hdest.
  - pose proof (fetch_and_install_fresh e MFW_REPO "maa"
                  (joinpath install_root "maafw") (joinpath install_root "maafw")
                  (path_exists e (joinpath (joinpath install_root "maafw")
                                    (MFW_DIST_NAME (host_os e))))
                  update_mode local_version
                  (joinpath (joinpath install_root "maafw")
                     (MFW_DIST_NAME (host_os e))) Hdest) as [Hfuel Hrun].
    unfold never_prompts.
    setoid_rewrite install_maafw_call. cbv zeta.
    destruct (skip_if_exist && _); [split; [reflexivity | eauto] |].
    split; assumption.
  - pose proof (fetch_and_install_fresh e MXU_REPO "mxu"
                  (joinpath install_root (MXU_DIST_NAME (host_os e)))
                  install_root
                  (path_exists e (joinpath install_root
                                    (MXU_DIST_NAME (host_os e))))
                  update_mode local_version
                  (joinpath install_root (MXU_DIST_NAME (host_os e))) Hdest)
      as [Hfuel Hrun].
    unfold never_prompts.
    setoid_rewrite install_mxu_call. cbv zeta.
    destruct (skip_if_exist && _); [split; [reflexivity | eauto] |].
    split; assumption.
Qed.

Lemma install_fresh_never_prompts_witness :
  never_prompts
    (fun fuel => install_maafw example_fresh_env fuel "/ws/install" true false PNone)
  /\ install_maafw example_fresh_env 0 "/ws/install" true false PNone
     = Some (Ok (true, PStr "v1.4.2", true),
             [EvExists "/ws/install/maafw/libMaaFramework.so";
              EvReleases MFW_REPO;
              EvDownload (PStr "https://dl/all/v1.4.2/linux")
                "/tmp/setup/MAA-mxu-linux-aarch64.tar.gz";
              EvExists "/ws/install/maafw";
              EvUnpack "/tmp/setup/MAA-mxu-linux-aarch64.tar.gz"
                "/ws/install/maafw"]).
Proof.
  split; [| reflexivity].
  exact (proj1 (install_fresh_never_prompts example_fresh_env "/ws/install"
                  true false PNone) eq_refl).
Defined.





(** ** Version ledger *)

Section LedgerLaws.

Variable repr : value -> string.

Lemma list_to_map_dict_lookup (items : list (string * value)) k :
  (list_to_map items : gmap string value) !! k = dict_lookup items k.
Proof.
  induction items as [| [k' v] rest IH]; simpl; [apply lookup_empty |].
  unfold PyStr.eqb. destruct (String.eqb_spec k' k) as [-> | Hne].
  - apply lookup_insert_eq.
  - now rewrite lookup_insert_ne.
Qed.

Lemma stringify_items_lookup items :
  NoDup (map fst items) ->
  forall (acc : gmap string value) k,
    fold_left (fun m kv => <[fst kv := PStr (py_str repr (snd kv))]> m) items acc
      !! k
    = match dict_lookup items k with
      | Some v => Some (PStr (py_str repr v))
      | None => acc !! k
      end.
Proof.
  induction items as [| [k0 v0] rest IH]; intros Hdup acc k; simpl;
    [reflexivity |].
  inversion Hdup as [| ? ? Hnotin Hrest]; subst.
  rewrite (IH Hrest). unfold PyStr.eqb.
  destruct (String.eqb_spec k0 k) as [-> | Hne].
  - destruct (dict_lookup rest k) as [v |] eqn:Hlook.
    + exfalso. apply Hnotin. rewrite <- list_to_map_dict_lookup in Hlook.
      apply elem_of_list_to_map_2 in Hlook.
      apply list_elem_of_In. apply in_map_iff. exists (k, v). split; [easy |].
      now apply list_elem_of_In.
    + apply lookup_insert_eq.
  - destruct (dict_lookup rest k); [reflexivity |].
    now rewrite lookup_insert_ne.
Qed.

Lemma stringify_items_get items k :
  NoDup (map fst items) ->
  stringify_items repr items !! k
  = (fun v => PStr (py_str repr v)) <$> dict_lookup items k.
Proof.
  intros Hdup. unfold stringify_items.
  rewrite (stringify_items_lookup items Hdup ∅ k), lookup_empty.
  now destruct (dict_lookup items k).
Qed.

Lemma read_versions_document d items :
  dict_get d "versions" (PDict []) = PDict items ->
  read_versions_file repr (FileContent (Ok (PDict d)))
  = Ok (stringify_items repr items).
Proof.
  intros Hget. unfold read_versions_file, load_versions. simpl.
  now rewrite Hget.
Qed.

Lemma read_written (versions : gmap string value) :
  read_versions_file repr (write_versions_file WriteSucceeds versions)
  = Ok ((fun v => PStr (py_str repr v)) <$> versions).
Proof.
  unfold write_versions_file, versions_document.
  rewrite (read_versions_document _ (map_to_list versions)) by reflexivity.
  f_equal. apply map_eq. intros k.
  rewrite stringify_items_get, lookup_fmap.
  - now rewrite <- list_to_map_dict_lookup, list_to_map_to_list.
  - replace (map fst (map_to_list versions)) with ((map_to_list versions).*1)
      by reflexivity.
    apply NoDup_fst_map_to_list.
Qed.


End LedgerLaws.

(** X14: writing the ledger and loading it again gives the ledger back:
    after a write that succeeds, [read_versions_file] returns every entry
    with its value converted by [str], hence the ledger itself when all
    its values are strings. *)
Theorem read_after_write (repr : value -> string)
    (versions : gmap string value) :
  map_Forall (fun _ v => exists s, v = PStr s) versions ->
  read_versions_file repr (write_versions_file WriteSucceeds versions)
  = Ok versions
  /\ forall other : gmap string value,
       read_versions_file repr (write_versions_file WriteSucceeds other)
       = Ok ((fun v => PStr (py_str repr v)) <$> other).
Proof.
  intros Hstr. split; [| apply read_written].
  rewrite read_written. f_equal. apply map_eq. intros k. rewrite lookup_fmap.
  destruct (versions !! k) as [v |] eqn:Hk; [| reflexivity].
  destruct (Hstr k v Hk) as [s ->]. reflexivity.
Qed.

Lemma read_after_write_witness :
  read_versions_file (fun _ => "?")
    (write_versions_file WriteSucceeds
       (<["maafw" := PStr "v5.1.0"]> (<["mxu" := PStr "v1.4.2"]> ∅)))
  = Ok (<["maafw" := PStr "v5.1.0"]> (<["mxu" := PStr "v1.4.2"]> ∅)).
Proof.
  refine (proj1 (read_after_write (fun _ => "?") _ _)).
  intros k v Hk.
  destruct (decide (k = "maafw")) as [-> | Hm].
  - rewrite lookup_insert_eq in Hk. injection Hk as <-. now eexists.
  - rewrite lookup_insert_ne in Hk by congruence.
    destruct (decide (k = "mxu")) as [-> | Hx].
    + rewrite lookup_insert_eq in Hk. injection Hk as <-. now eexists.
    + rewrite lookup_insert_ne, lookup_empty in Hk by congruence.
      discriminate.
Defined.

(** X15: loading keeps every entry of the 'versions' object and converts
    its value with [str]: strings stay, [None] becomes "None", booleans
    "True" and "False", integers their decimal text. *)
Theorem read_versions_file_entries (repr : value -> string)
    (d items : list (string * value)) (k : string) :
  dict_get d "versions" (PDict []) = PDict items ->
  NoDup (map fst items) ->
  (exists versions,
     read_versions_file repr (FileContent (Ok (PDict d))) = Ok versions
     /\ versions !! k
        = (fun v => PStr (py_str repr v)) <$> dict_lookup items k)
  /\ (forall s, py_str repr (PStr s) = s)
  /\ py_str repr PNone = "None"
  /\ py_str repr (PBool true) = "True"
  /\ py_str repr (PBool false) = "False"
  /\ (forall n, 0 <= n -> py_str repr (PInt n) = decimal n).
Proof.
  intros Hget Hdup.
  split.
  { exists (stringify_items repr items).
    split; [now apply read_versions_document | now apply stringify_items_get]. }
  repeat split.
  intros n Hn. simpl. destruct (Z.ltb_spec n 0); [lia | reflexivity].
Qed.

Lemma read_versions_file_entries_witness :
  exists versions,
    read_versions_file (fun _ => "?")
      (FileContent
         (Ok (PDict [("schema", PInt 1);
                     ("versions", PDict [("maafw", PStr "v5.1.0");
                                         ("mxu", PInt 3)])])))
    = Ok versions
    /\ versions !! "mxu" = Some (PStr "3").
Proof.
  refine (proj1 (read_versions_file_entries (fun _ => "?")
                   [("schema", PInt 1);
                    ("versions", PDict [("maafw", PStr "v5.1.0");
                                        ("mxu", PInt 3)])]
                   [("maafw", PStr "v5.1.0"); ("mxu", PInt 3)]
                   "mxu" eq_refl _)).
  apply (bool_decide_unpack _). vm_compute. exact I.
Defined.

(** ** Orchestration *)

Section MainLaws.

Variable repr : value -> string.

Lemma writes_app xs ys : writes (xs ++ ys) = writes xs ++ writes ys.
Proof. unfold writes. apply flat_map_app. Qed.

Lemma writes_events (log : list event) : writes (map StepEvent log) = [].
Proof. induction log as [| ev log IH]; simpl; [reflexivity | exact IH]. Qed.


Lemma writes_update_submodules h skip r log :
  update_submodules h skip = (r, log) -> writes log = [].
Proof.
  unfold update_submodules, run_command. cbv zeta.
  destruct (negb skip); [| destruct (negb (path_exists _ _))];
    try match goal with
        | |- context [command h ?c] => destruct (command h c)
        end;
    intros [= _ <-]; reflexivity.
Qed.

Lemma writes_run_build_script h r log :
  run_build_script h = (r, log) -> writes log = [].
Proof.
  unfold run_build_script, run_command. cbv zeta.
  match goal with
  | |- context [command h ?c] => destruct (command h c)
  end; intros [= _ <-]; reflexivity.
Qed.

(** Every way in which [main] ends, told apart by whether it wrote. *)
Lemma main_outcomes h fuel update ci status log file :
  main repr h fuel update ci = Some (status, log, file) ->
  (writes log = [] /\ file = version_file_state h)
  \/ (status = ExitOk /\ ci = false
      /\ exists local_versions log3 v1 d1 v2 d2 log_maafw log_mxu,
           let install_dir := joinpath (project_base h) "install" in
           let versions :=
             record_version (record_version local_versions "maafw" v1)
               "mxu" v2 in
           read_versions_file repr (version_file_state h) = Ok local_versions
           /\ install_maafw (world h) fuel install_dir (negb update) update
             (ledger_get local_versions "maafw")
           = Some (Ok (true, v1, d1), log_maafw)
           /\ install_mxu (after_prompts (world h) (prompts_in log_maafw))
                fuel install_dir (negb update) update
                (ledger_get local_versions "mxu")
              = Some (Ok (true, v2, d2), log_mxu)
           /\ d1 || d2 = true
           /\ (forall ev, In ev log_maafw \/ In ev log_mxu ->
                          In (StepEvent ev) log3)
           /\ writes log3 = []
           /\ log = log3 ++ [StepWrite (joinpath install_dir "version.json")
                               versions]
           /\ file = write_versions_file (write_outcome_of h) versions).
Proof.
  unfold main.
  destruct (read_versions_file repr (version_file_state h))
    as [local_versions | x] eqn:Hread;
    [| intros [= <- <- <-]; now left].
  unfold main_from. cbv zeta.
  destruct (update_submodules h (negb update)) as [submodules log0] eqn:Hsub.
  pose proof (writes_update_submodules _ _ _ _ Hsub) as Hw0.
  destruct submodules as [[|] | x];
    try (intros [= <- <- <-]; now left).
  destruct (run_build_script h) as [built log_build] eqn:Hbuild.
  pose proof (writes_run_build_script _ _ _ Hbuild) as Hwb.
  assert (Hw1 : writes (log0 ++ log_build) = [])
    by now rewrite writes_app, Hw0, Hwb.
  destruct built as [[|] | x];
    try (intros [= <- <- <-]; now left).
  destruct (install_maafw _ _ _ _ _ _)
    as [[[[[ok1 v1] d1] | x] log_maafw] |] eqn:Hmaafw;
    try discriminate.
  2:{ intros [= <- <- <-]. left.
      now rewrite writes_app, Hw1, writes_events. }
  assert (Hw2 : writes ((log0 ++ log_build) ++ map StepEvent log_maafw) = [])
    by now rewrite writes_app, Hw1, writes_events.
  destruct ok1; simpl.
  2:{ intros [= <- <- <-]. now left. }
  destruct (install_mxu _ _ _ _ _ _)
    as [[[[[ok2 v2] d2] | x] log_mxu] |] eqn:Hmxu;
    try discriminate.
  2:{ intros [= <- <- <-]. left.
      now rewrite writes_app, Hw2, writes_events. }
  assert (Hw3 : writes (((log0 ++ log_build) ++ map StepEvent log_maafw)
                        ++ map StepEvent log_mxu) = [])
    by now rewrite writes_app, Hw2, writes_events.
  destruct ok2; simpl.
  2:{ intros [= <- <- <-]. now left. }
  destruct ci; simpl.
  { intros [= <- <- <-]. now left. }
  destruct (d1 || d2) eqn:Hd.
  2:{ intros [= <- <- <-]. now left. }
  intros [= <- <- <-]. right.
  split; [reflexivity |]. split; [reflexivity |].
  exists local_versions,
    (((log0 ++ log_build) ++ map StepEvent log_maafw)
     ++ map StepEvent log_mxu), v1, d1, v2, d2, log_maafw, log_mxu.
  cbv zeta. repeat split; try assumption; try reflexivity.
  intros ev [Hin | Hin]; rewrite !in_app_iff.
  - left. right. now apply in_map.
  - right. now apply in_map.
Qed.

End MainLaws.

(** X16: with the submodules checked out, a build script that succeeds
    and both artifacts in place, [main] without [--update] returns
    normally after two existence checks: it looks up no release,
    downloads nothing, prompts nobody and leaves the version file as it
    is, whatever the fuel and the [--ci] flag.  The one exception is a
    version file whose existence check raises: [main] then ends with that
    exception before it does anything. *)
Theorem main_already_set_up (repr : value -> string) (h : host) (fuel : nat)
    (ci : bool) :
  let base := project_base h in
  let license :=
    joinpath (joinpath (joinpath base "assets") "MaaCommonAssets") "LICENSE" in
  let build :=
    [python h; joinpath (joinpath base "tools") "build_and_install.py"] in
  let install_dir := joinpath base "install" in
  let artifact :=
    joinpath (joinpath install_dir "maafw") (MFW_DIST_NAME (host_os (world h))) in
  let mxu_path := joinpath install_dir (MXU_DIST_NAME (host_os (world h))) in
  path_exists (world h) license = true ->
  command h build = CommandSucceeds ->
  path_exists (world h) artifact = true ->
  path_exists (world h) mxu_path = true ->
  main repr h fuel false ci
  = match read_versions_file repr (version_file_state h) with
    | Raise x => Some (Uncaught x, [], version_file_state h)
    | Ok _ =>
        Some (ExitOk,
              [StepEvent (EvExists license); StepCommand build;
               StepEvent (EvExists artifact); StepEvent (EvExists mxu_path)],
              version_file_state h)
    end.
Proof.
  intros base license build install_dir artifact mxu_path
    Hlicense Hbuild Hartifact Hmxu.
  unfold main.
  destruct (read_versions_file repr (version_file_state h))
    as [local_versions | x]; [| reflexivity].
  unfold main_from, update_submodules, run_build_script, run_command.
  cbv zeta.
  fold base. fold license. fold build. fold install_dir.
  simpl negb. cbv iota. rewrite Hlicense. simpl negb. cbv iota.
  rewrite Hbuild.
  rewrite install_maafw_call. cbv zeta. fold artifact.
  rewrite Hartifact. simpl.
  rewrite install_mxu_call. cbv zeta. simpl. fold mxu_path.
  rewrite Hmxu. simpl.
  now destruct ci.
Qed.

Lemma main_already_set_up_witness :
  main (fun _ => "?") example_host 0 false false
  = Some (ExitOk,
          [StepEvent (EvExists "/ws/assets/MaaCommonAssets/LICENSE");
           StepCommand ["/usr/bin/python3"; "/ws/tools/build_and_install.py"];
           StepEvent (EvExists "/ws/install/maafw/MaaFramework.dll");
           StepEvent (EvExists "/ws/install/mxu.exe")],
          version_file_state example_host).
Proof.
  exact (main_already_set_up (fun _ => "?") example_host 0 false
           eq_refl eq_refl eq_refl eq_refl).
Defined.

(** X17: [main] writes the version file only when it ends normally,
    without [--ci], after a download that succeeded: if its log records a
    write or the file is not as it was, then the status is a normal
    return, [--ci] is off and the log holds a successful download.  In
    particular a run that fails writes nothing, even when the first
    component was installed before the second one failed. *)
Theorem main_write_guard (repr : value -> string) (h : host) (fuel : nat)
    (update ci : bool) (status : exit_status) (log : list step)
    (file : version_file) :
  main repr h fuel update ci = Some (status, log, file) ->
  writes log <> [] \/ file <> version_file_state h ->
  status = ExitOk /\ ci = false
  /\ exists url archive,
       In (StepEvent (EvDownload url archive)) log
       /\ download_file (world h) url archive = true.
Proof.
  intros Hmain Hwrote.
  destruct (main_outcomes repr _ _ _ _ _ _ _ Hmain)
    as [[Hnone Hsame] | (-> & -> & Hwrite)].
  { destruct Hwrote; contradiction. }
  destruct Hwrite
    as (loaded & log3 & v1 & d1 & v2 & d2 & log_maafw & log_mxu & H).
  cbv zeta in H.
  destruct H as (_ & Hmaafw & Hmxu & Hd & Hin & _ & -> & _).
  split; [reflexivity |]. split; [reflexivity |].
  apply orb_true_iff in Hd as [-> | ->].
  - destruct (install_maafw_sound _ _ _ _ _ _ _ _ _ _ Hmaafw)
      as (_ & _ & Hdown).
    destruct (Hdown eq_refl) as (_ & url & archive & dest & Hev & Hok & _).
    exists url, archive. split; [| exact Hok].
    apply in_or_app. left. apply Hin. now left.
  - destruct (install_mxu_sound _ _ _ _ _ _ _ _ _ _ Hmxu)
      as (_ & _ & Hdown).
    destruct (Hdown eq_refl) as (_ & url & archive & dest & Hev & Hok & _).
    exists url, archive. split; [| exact Hok].
    apply in_or_app. left. apply Hin. now right.
Qed.

Lemma main_write_guard_witness :
  exists status log file,
    main (fun _ => "?") example_fresh_host 0 false false
    = Some (status, log, file)
    /\ file <> version_file_state example_fresh_host
    /\ status = ExitOk
    /\ exists url archive,
         In (StepEvent (EvDownload url archive)) log
         /\ download_file (world example_fresh_host) url archive = true.
Proof.
  destruct (main (fun _ => "?") example_fresh_host 0 false false)
    as [[[status log] file] |] eqn:Hrun.
  - exists status, log, file. split; [reflexivity |].
    assert (Hfile : file <> version_file_state example_fresh_host).
    { vm_compute in Hrun. injection Hrun as _ _ <-. discriminate. }
    split; [exact Hfile |].
    destruct (main_write_guard _ _ _ _ _ _ _ _ Hrun (or_intror Hfile))
      as (Hstatus & _ & Hdown).
    now split.
  - vm_compute in Hrun. discriminate.
Defined.





(** ** The read loop *)

Section ReadLoopLaws.

Variable progress : Z -> Z -> Q -> result string.

Lemma length_append (x y : string) :
  String.length (x +:+ y) = (String.length x + String.length y)%nat.
Proof. induction x as [| c r IH]; simpl; [reflexivity | now rewrite IH]. Qed.

Lemma all_bytes_app xs ys : all_bytes (xs ++ ys) = all_bytes xs +:+ all_bytes ys.
Proof.
  induction xs as [| c xs IH]; simpl; [reflexivity |].
  now rewrite IH, append_assoc.
Qed.




Lemma read_loop_lines total ending chunks :
  forall received cached ok data lines,
    read_loop progress total chunks ending received cached = (ok, data, lines) ->
    no_repeat lines = true
    /\ match lines with
       | first :: _ => PyStr.eqb first cached = false
       | [] => True
       end
    /\ (length lines <= length (before_empty chunks))%nat
    /\ forall line, In line lines ->
         exists pre c post,
           before_empty chunks = pre ++ c :: post
           /\ progress
                (received
                 + Z.of_nat (String.length (all_bytes (pre ++ [c]))))
                total (snd c) = Ok line.
Proof.
  induction chunks as [| [chunk elapsed] rest IH];
    intros received cached ok data lines; simpl.
  - destruct ending; intros [= <- <- <-]; repeat split; auto; intros ? [].
  - destruct (PyStr.is_empty chunk) eqn:Hempty.
    + intros [= <- <- <-]. repeat split; auto; intros ? [].
    + set (now := received + Z.of_nat (String.length chunk)) in *.
      destruct (progress now total elapsed) as [current | x] eqn:Hcurrent.
      2:{ intros [= <- <- <-]. repeat split; auto; [simpl; lia | intros ? []]. }
      destruct (read_loop progress total rest ending _ _)
        as [[ok' data'] lines'] eqn:Hrest.
      destruct (IH _ _ _ _ _ Hrest) as (Hrep & Hhead & Hlen & Hin).
      assert (Hlater : forall line, In line lines' ->
        exists pre c post,
          (chunk, elapsed) :: before_empty rest = pre ++ c :: post
          /\ progress
               (received
                + Z.of_nat (String.length (all_bytes (pre ++ [c]))))
               total (snd c) = Ok line).
      { intros line Hline.
        destruct (Hin line Hline) as (pre & c & post & Hsplit & Hvalue).
        exists ((chunk, elapsed) :: pre), c, post.
        split; [simpl; now rewrite Hsplit |].
        rewrite <- Hvalue. f_equal. simpl. rewrite length_append.
        unfold now. lia. }
      destruct (PyStr.eqb current cached) eqn:Hsame;
        intros [= <- <- <-].
      * split; [exact Hrep |]. split.
        -- destruct lines' as [| first more]; [exact I |].
           unfold PyStr.eqb in *. apply String.eqb_eq in Hsame.
           now rewrite <- Hsame.
        -- split; [simpl; lia | exact Hlater].
      * split.
        -- simpl. destruct lines' as [| first more]; [reflexivity |].
           rewrite Hrep, andb_true_r. apply negb_true_iff.
           unfold PyStr.eqb in *. rewrite String.eqb_sym. exact Hhead.
        -- split; [exact Hsame |]. split; [simpl; lia |].
           intros line [<- | Hline]; [| now apply Hlater].
           exists [], (chunk, elapsed), (before_empty rest).
           split; [reflexivity |]. rewrite <- Hcurrent. f_equal. simpl.
           rewrite length_append. simpl. unfold now. lia.
Qed.

End ReadLoopLaws.



(** X21: the progress lines [download_file] prints never repeat: no line
    equals the one printed just before it.  There is at most one line
    per chunk, and every line is the progress line of some chunk,
    computed from the bytes received up to and including it. *)
Theorem download_file_progress (progress : Z -> Z -> Q -> result string)
    (c : connection) :
  let lines := snd (download_file_run progress c) in
  no_repeat lines = true
  /\ match c with
     | ConnectFails _ => lines = []
     | Connected content_length chunks ending =>
         (length lines <= length (before_empty chunks))%nat
         /\ forall line, In line lines ->
              exists size_total pre chunk post,
                size_total_of content_length = Ok size_total
                /\ before_empty chunks = pre ++ chunk :: post
                /\ progress
                     (Z.of_nat (String.length (all_bytes (pre ++ [chunk]))))
                     size_total (snd chunk) = Ok line
     end.
Proof.
  destruct c as [e | content_length chunks ending]; simpl.
  { now split. }
  destruct (size_total_of content_length) as [size_total | e] eqn:Htotal.
  2:{ simpl. split; [reflexivity |]. split; [lia | intros ? []]. }
  destruct (read_loop progress size_total chunks ending 0 "")
    as [[ok data] lines] eqn:Hloop.
  destruct (read_loop_lines _ _ _ _ _ _ _ _ _ Hloop)
    as (Hrep & _ & Hlen & Hin).
  simpl. split; [exact Hrep |]. split; [exact Hlen |].
  intros line Hline.
  destruct (Hin line Hline) as (pre & chunk & post & Hsplit & Hvalue).
  now exists size_total, pre, chunk, post.
Qed.

(** ** Rendering sizes and durations *)

Section Rendering.

Lemma decimal_head n :
  exists c r, decimal n = String c r /\ PyStr.isdecimal c = true.
Proof.
  pose proof (decimal_chars n) as Hchars.
  pose proof (decimal_nonempty n) as Hne.
  destruct (decimal n) as [| c r]; [discriminate |].
  simpl in Hchars. apply andb_true_iff in Hchars as [Hc _]. eauto.
Qed.

Lemma format_1f_head n d :
  exists c r, format_1f n d = String c r /\ PyStr.isdecimal c = true.
Proof.
  unfold format_1f.
  destruct (decimal_head (round_half_even (10 * n) d / 10))
    as (c & r & -> & Hc).
  simpl. eauto.
Qed.

Lemma scale_units_head n more :
  forall den unit,
    exists c r,
      scale_units n den unit more = String c r /\ PyStr.isdecimal c = true.
Proof.
  induction more as [| next rest IH]; intros den unit; simpl.
  - destruct (format_1f_head n den) as (c & r & -> & Hc). simpl. eauto.
  - destruct (n <? 1024 * den); [| apply IH].
    destruct (format_1f_head n den) as (c & r & -> & Hc). simpl. eauto.
Qed.

Lemma format_1f_whole n : 0 <= n -> format_1f n 1 = decimal n +:+ ".0".
Proof.
  intros Hn. unfold format_1f, round_half_even. cbv zeta.
  rewrite Z.div_1_r, Z.mod_1_r.
  change (2 * 0 <? 1) with true. cbv iota.
  rewrite (Z.mul_comm 10 n), Z.div_mul, Z.mod_mul by lia.
  reflexivity.
Qed.

Lemma round_half_even_bounds n d :
  n / d <= round_half_even n d <= n / d + 1.
Proof.
  unfold round_half_even. cbv zeta.
  destruct (2 * (n mod d) <? d); [lia |].
  destruct (d <? 2 * (n mod d)); [lia |].
  destruct (Z.even (n / d)); lia.
Qed.

Lemma float_of_int_exact n : 0 <= n < 2 ^ 53 -> float_of_int n = Ok n.
Proof.
  intros [Hn Hlt]. unfold float_of_int. cbv zeta.
  assert (Z.log2 n <= 52).
  { destruct (Z.eq_dec n 0) as [-> | Hne]; [simpl; lia |].
    assert (Z.log2 n < 53) by (apply Z.log2_lt_pow2; lia). lia. }
  destruct (Z.leb_spec (Z.log2 n - 52) 0); [reflexivity | lia].
Qed.

(** The significand of a number of more than 53 bits. *)
Lemma significand_range n :
  52 < Z.log2 n ->
  let d := 2 ^ (Z.log2 n - 52) in
  0 < n /\ 0 < d /\ 2 ^ 52 * d = 2 ^ Z.log2 n /\ 2 ^ 52 <= n / d < 2 ^ 53.
Proof.
  intros Hlog d.
  assert (Hn : 0 < n).
  { destruct (Z.lt_ge_cases 0 n) as [? | Hle]; [assumption |].
    rewrite (Z.log2_nonpos n) in Hlog by lia. lia. }
  destruct (Z.log2_spec n Hn) as [Hlow Hhigh].
  assert (Hd : 0 < d) by (apply Z.pow_pos_nonneg; lia).
  assert (Hsplit : 2 ^ 52 * d = 2 ^ Z.log2 n).
  { unfold d. rewrite <- Z.pow_add_r by lia. f_equal. lia. }
  split; [exact Hn |]. split; [exact Hd |]. split; [exact Hsplit |].
  split.
  - apply Z.div_le_lower_bound; lia.
  - apply Z.div_lt_upper_bound; [exact Hd |].
    rewrite Z.pow_succ_r in Hhigh by lia. lia.
Qed.

Lemma float_of_int_rounded n s :
  0 <= n -> float_of_int n = Ok s -> 0 <= s /\ (n < 2 ^ 53 -> s = n).
Proof.
  intros Hn. unfold float_of_int. cbv zeta.
  destruct (Z.leb_spec (Z.log2 n - 52) 0) as [Hsmall | Hbig].
  - intros [= <-]. split; [exact Hn | reflexivity].
  - destruct (significand_range n ltac:(lia)) as (Hpos & Hd & Hsplit & Hq).
    pose proof (round_half_even_bounds n (2 ^ (Z.log2 n - 52))) as Hr.
    destruct (_ <? 2 ^ 1024); [| discriminate].
    intros [= <-]. split; [nia |].
    intros Hlt. exfalso.
    assert (Z.log2 n < 53) by (apply Z.log2_lt_pow2; lia). lia.
Qed.

Lemma float_of_int_overflow n :
  0 <= n ->
  (n < 2 ^ 1024 - 2 ^ 970 -> exists s, float_of_int n = Ok s)
  /\ (2 ^ 1024 - 2 ^ 970 <= n -> float_of_int n = Raise OverflowError).
Proof.
  intros Hn. unfold float_of_int. cbv zeta.
  destruct (Z.leb_spec (Z.log2 n - 52) 0) as [Hsmall | Hbig].
  { split; [eauto |]. intros Hge. exfalso.
    assert (Z.log2 n < 53) by lia.
    assert (n < 2 ^ 53) by (apply Z.log2_lt_pow2; lia).
    assert (2 ^ 53 < 2 ^ 1024 - 2 ^ 970) by (vm_compute; reflexivity). lia. }
  destruct (significand_range n ltac:(lia)) as (Hpos & Hd & Hsplit & Hq).
  pose proof (round_half_even_bounds n (2 ^ (Z.log2 n - 52))) as Hr.
  destruct (Z.lt_trichotomy (Z.log2 n) 1023) as [Hlt | [Heq | Hgt]].
  - (* below the last binade *)
    assert (Hpow : 2 ^ Z.log2 n <= 2 ^ 1022) by (apply Z.pow_le_mono_r; lia).
    destruct (Z.log2_spec n Hpos) as [_ Hhigh].
    rewrite Z.pow_succ_r in Hhigh by lia.
    assert (Hc : 2 * 2 ^ 1022 < 2 ^ 1024 - 2 ^ 970) by (vm_compute; reflexivity).
    assert (Hc' : 2 * 2 ^ 1022 < 2 ^ 1024) by (vm_compute; reflexivity).
    split; [| lia]. intros _.
    assert (Hs : round_half_even n (2 ^ (Z.log2 n - 52))
                 * 2 ^ (Z.log2 n - 52) <= 2 ^ 53 * 2 ^ (Z.log2 n - 52))
      by (apply Z.mul_le_mono_nonneg_r; lia).
    destruct (Z.ltb_spec (round_half_even n (2 ^ (Z.log2 n - 52))
                          * 2 ^ (Z.log2 n - 52)) (2 ^ 1024)); [eauto | lia].
  - (* the last binade *)
    rewrite Heq in *. change (1023 - 52) with 971 in *.
    clear Hr. unfold round_half_even. cbv zeta.
    pose proof (Z.div_mod n (2 ^ 971) ltac:(lia)) as Hdm.
    pose proof (Z.mod_pos_bound n (2 ^ 971) ltac:(lia)) as Hmod.
    set (q := n / 2 ^ 971) in *. set (r := n mod 2 ^ 971) in *.
    assert (Hc1 : 2 ^ 1024 - 2 ^ 970 = (2 ^ 53 - 1) * 2 ^ 971 + 2 ^ 970)
      by (vm_compute; reflexivity).
    assert (Hc2 : 2 ^ 971 = 2 * 2 ^ 970) by (vm_compute; reflexivity).
    assert (Hc3 : 2 ^ 1024 = 2 ^ 53 * 2 ^ 971) by (vm_compute; reflexivity).
    assert (Hc4 : 0 < 2 ^ 970) by (vm_compute; reflexivity).
    split.
    + intros Hlt.
      assert (Hs : (if 2 * r <? 2 ^ 971 then q
                    else if 2 ^ 971 <? 2 * r then q + 1
                    else if Z.even q then q else q + 1) * 2 ^ 971 < 2 ^ 1024).
      { destruct (Z.ltb_spec (2 * r) (2 ^ 971)); [nia |].
        assert (q <= 2 ^ 53 - 2) by nia.
        destruct (2 ^ 971 <? 2 * r); [nia |].
        destruct (Z.even q); nia. }
      match goal with
      | |- context [?a <? 2 ^ 1024] => destruct (Z.ltb_spec a (2 ^ 1024))
      end; [eauto | lia].
    + intros Hge.
      assert (Hqv : q = 2 ^ 53 - 1) by nia.
      assert (Hs : 2 ^ 1024 <= (if 2 * r <? 2 ^ 971 then q
                    else if 2 ^ 971 <? 2 * r then q + 1
                    else if Z.even q then q else q + 1) * 2 ^ 971).
      { destruct (Z.ltb_spec (2 * r) (2 ^ 971)); [nia |].
        destruct (2 ^ 971 <? 2 * r); [nia |].
        rewrite Hqv. change (Z.even (2 ^ 53 - 1)) with false. cbv iota. nia. }
      match goal with
      | |- context [?a <? 2 ^ 1024] => destruct (Z.ltb_spec a (2 ^ 1024))
      end; [lia | reflexivity].
  - (* beyond *)
    assert (Hpow : 2 ^ 1024 <= 2 ^ Z.log2 n) by (apply Z.pow_le_mono_r; lia).
    destruct (Z.log2_spec n Hpos) as [Hlow _].
    assert (H1024 : 2 ^ 1024 - 2 ^ 970 < 2 ^ 1024) by (vm_compute; reflexivity).
    split; [lia |]. intros _.
    assert (Hs : 2 ^ 52 * 2 ^ (Z.log2 n - 52)
                 <= round_half_even n (2 ^ (Z.log2 n - 52))
                    * 2 ^ (Z.log2 n - 52))
      by (apply Z.mul_le_mono_nonneg_r; lia).
    destruct (Z.ltb_spec (round_half_even n (2 ^ (Z.log2 n - 52))
                          * 2 ^ (Z.log2 n - 52)) (2 ^ 1024)); [lia | reflexivity].
Qed.

End Rendering.

(** X22: [to_file_size] renders the placeholder "--" exactly for an
    unknown or a negative size.  A size from 0 up to the largest one that
    [float()] converts is rendered as a number, and a larger one (from
    2^1024 - 2^970 on) raises [OverflowError]. *)
Theorem to_file_size_placeholder (size : option Z) :
  (to_file_size size = Ok "--"
   <-> size = None \/ exists n, size = Some n /\ n < 0)
  /\ (forall n,
        size = Some n -> 0 <= n ->
        (n < 2 ^ 1024 - 2 ^ 970 ->
         exists c r,
           to_file_size size = Ok (String c r) /\ PyStr.isdecimal c = true)
        /\ (2 ^ 1024 - 2 ^ 970 <= n ->
            to_file_size size = Raise OverflowError)).
Proof.
  assert (Hnumber : forall n,
    0 <= n ->
    (n < 2 ^ 1024 - 2 ^ 970 ->
     exists c r,
       to_file_size (Some n) = Ok (String c r) /\ PyStr.isdecimal c = true)
    /\ (2 ^ 1024 - 2 ^ 970 <= n ->
        to_file_size (Some n) = Raise OverflowError)).
  { intros n Hn. unfold to_file_size.
    destruct (Z.ltb_spec n 0) as [? | _]; [lia |].
    destruct (float_of_int_overflow n Hn) as [Hfits Hbeyond].
    split.
    - intros Hlt. destruct (Hfits Hlt) as [s ->]. cbn [bind].
      destruct (scale_units_head s ["KB"; "MB"; "GB"; "TB"] 1 "B")
        as (c & r & -> & Hc).
      eauto.
    - intros Hge. now rewrite (Hbeyond Hge). }
  split; [| intros n ->; apply Hnumber].
  split.
  - destruct size as [n |]; [| now left].
    intros H. right. exists n. split; [reflexivity |].
    destruct (Z.lt_ge_cases n 0) as [Hneg | Hpos]; [exact Hneg | exfalso].
    destruct (Hnumber n Hpos) as [Hfits Hbeyond].
    destruct (Z.lt_ge_cases n (2 ^ 1024 - 2 ^ 970)) as [Hlt | Hge].
    + destruct (Hfits Hlt) as (c & r & Heq & Hc).
      rewrite Heq in H. injection H as -> _. discriminate.
    + rewrite (Hbeyond Hge) in H. discriminate.
  - intros [-> | (n & -> & Hn)]; [reflexivity |].
    unfold to_file_size. now destruct (Z.ltb_spec n 0); [| lia].
Qed.

(** X23: [to_file_size] picks the unit by powers of 1024 of the size as
    [float()] converts it, which is the size itself below 2^53: a size
    below 1024 is shown in whole bytes, and a size from 1024^k up to
    1024^(k+1) is shown as the size divided by 1024^k in the k-th unit,
    TB being the last unit, used however large the size is. *)
Theorem to_file_size_units (n s : Z) :
  0 <= n -> float_of_int n = Ok s ->
  (n < 2 ^ 53 -> s = n)
  /\ (s < 1024 -> to_file_size (Some n) = Ok (decimal s +:+ ".0 B"))
  /\ (1024 <= s < 1024 ^ 2 ->
      to_file_size (Some n) = Ok (format_1f s 1024 +:+ " KB"))
  /\ (1024 ^ 2 <= s < 1024 ^ 3 ->
      to_file_size (Some n) = Ok (format_1f s (1024 ^ 2) +:+ " MB"))
  /\ (1024 ^ 3 <= s < 1024 ^ 4 ->
      to_file_size (Some n) = Ok (format_1f s (1024 ^ 3) +:+ " GB"))
  /\ (1024 ^ 4 <= s ->
      to_file_size (Some n) = Ok (format_1f s (1024 ^ 4) +:+ " TB")).
Proof.
  intros Hn Hfloat.
  destruct (float_of_int_rounded n s Hn Hfloat) as [Hs Hexact].
  split; [exact Hexact |].
  unfold to_file_size.
  destruct (Z.ltb_spec n 0) as [? | _]; [lia |].
  rewrite Hfloat. cbn [bind].
  change (1024 ^ 2) with 1048576. change (1024 ^ 3) with 1073741824.
  change (1024 ^ 4) with 1099511627776.
  cbn [scale_units].
  change (1024 * 1) with 1024. change (1024 * 1024) with 1048576.
  change (1024 * 1048576) with 1073741824.
  change (1024 * 1073741824) with 1099511627776.
  repeat split; intros H;
    repeat match goal with
           | |- context [?a <? ?b] => destruct (Z.ltb_spec a b); try lia
           end;
    try reflexivity.
  rewrite format_1f_whole by lia. now rewrite append_assoc.
Qed.

Lemma to_file_size_units_witness :
  float_of_int 9007474132647937 = Ok 9007474132647936
  /\ to_file_size (Some 9007474132647937) = Ok "8192.2 TB"
  /\ to_file_size (Some 9007474132647937)
     = Ok (format_1f 9007474132647936 (1024 ^ 4) +:+ " TB")
  /\ to_file_size (Some 1536) = Ok (format_1f 1536 1024 +:+ " KB").
Proof.
  split; [reflexivity |]. split; [reflexivity |]. split.
  - exact (proj2 (proj2 (proj2 (proj2 (proj2
             (to_file_size_units 9007474132647937 9007474132647936
                ltac:(lia) eq_refl))))) ltac:(lia)).
  - exact (proj1 (proj2 (proj2
             (to_file_size_units 1536 1536 ltac:(lia) eq_refl))) ltac:(lia)).
Defined.

(** X24: [seconds_to_hms] shows the whole seconds of a non-negative
    duration as hours, minutes and seconds: for [h] hours, [m] < 60
    minutes and [s] < 60 seconds it renders the three numbers, each on at
    least two digits, and the hours are not reduced modulo a day. *)
Theorem seconds_to_hms_fields (q : Q) (h m s : Z) :
  0 <= h -> 0 <= m < 60 -> 0 <= s < 60 ->
  Qfloor q = 3600 * h + 60 * m + s ->
  seconds_to_hms (Some q)
  = format_02d h +:+ ":" +:+ format_02d m +:+ ":" +:+ format_02d s.
Proof.
  intros Hh Hm Hs Hfloor. unfold seconds_to_hms.
  assert (Hq : Qle_bool 0 q = true).
  { apply Qle_bool_iff.
    apply Qle_trans with (inject_Z (Qfloor q)); [| apply Qfloor_le].
    rewrite Hfloor. change 0%Q with (inject_Z 0).
    rewrite <- Zle_Qle. lia. }
  rewrite Hq. simpl negb. cbv iota. rewrite Hfloor.
  assert (H1 : (3600 * h + 60 * m + s) / 3600 = h)
    by (symmetry; apply (Z.div_unique _ _ h (60 * m + s)); lia).
  assert (H2 : (3600 * h + 60 * m + s) mod 3600 = 60 * m + s)
    by (symmetry; apply (Z.mod_unique _ _ h (60 * m + s)); lia).
  assert (H3 : (60 * m + s) / 60 = m)
    by (symmetry; apply (Z.div_unique _ _ m s); lia).
  assert (H4 : (3600 * h + 60 * m + s) mod 60 = s)
    by (symmetry; apply (Z.mod_unique _ _ (60 * h + m) s); lia).
  now rewrite H1, H2, H3, H4.
Qed.

Lemma seconds_to_hms_fields_witness :
  seconds_to_hms (Some (360245 # 2)) = "50:02:02".
Proof.
  exact (seconds_to_hms_fields (360245 # 2) 50 2 2
           ltac:(lia) ltac:(lia) ltac:(lia) eq_refl).
Defined.
